(** * Registration race: scheduling, balance gate and success signal

    A shallow embedding of the two scripts of the repository:
    [main.py] (block-height variant, module [Main]) and [monkey.py]
    (wall-clock variant, module [Monkey]).

    Remote calls of the bittensor SDK are answers of an explicit
    environment; a Python [try/except] becomes a [match] on a [result]
    or an [option]; polling loops carry fuel. *)

From Stdlib Require Import ZArith List String Bool Lia Permutation.
From Stdlib Require Import SpecFloat.
From Equations Require Import Equations.
Import ListNotations.
Local Open Scope Z_scope.

(** ** Python values as the balance comparison sees them *)

(** Python floats are IEEE binary64 numbers. *)
Module PyFloat.
Definition prec : Z := 53.
Definition emax : Z := 1024.
Definition t : Type := spec_float.
(** The literal [0.0]. *)
Definition zero : t := S754_zero false.
(** [x < y] on floats. *)
Definition lt (x y : t) : bool := SFltb x y.
(** [float(n)] for a Python int, correctly rounded. *)
Definition of_Z (n : Z) : t := binary_normalize prec emax n 0 false.
(** [n / d] for two Python ints (true division). *)
Definition div_Z (n d : Z) : t := SFdiv prec emax (of_Z n) (of_Z d).
End PyFloat.

(** What [_compare_balances] observes of a value: whether it is [None],
    the outcome of [a < b], whether it has a [tao] attribute, the outcome
    of [float(x.tao)] and the outcome of [float(str(x).split()[0])].
    [None] as an outcome stands for a raised exception. *)
Class PyValue (V : Type) := {
  is_none : V -> bool;
  py_lt : V -> V -> option bool;
  has_tao : V -> bool;
  float_of_tao : V -> option PyFloat.t;
  float_of_token : V -> option PyFloat.t
}.

Section BalanceGate.
Context {V : Type} `{PyValue V}.

(** The inner [to_float] of [_compare_balances]. *)
Definition to_float (x : V) : PyFloat.t :=
  match (if has_tao x then float_of_tao x else None) with
  | Some f => f
  | None =>
      match float_of_token x with
      | Some f => f
      | None => PyFloat.zero
      end
  end.

(** [_compare_balances(a, b)]. *)
Definition _compare_balances (a b : V) : bool :=
  match py_lt a b with
  | Some r => r
  | None => PyFloat.lt (to_float a) (to_float b)
  end.

(** The balance test of [submit_one]: [true] when the task goes on to
    [_try_register], [false] when it returns without submitting. *)
Definition balance_gate (bal burn_cost : V) : bool :=
  if is_none bal then true
  else if _compare_balances bal burn_cost then false
  else true.

(** Neither conversion of [to_float] yields a number for [x]: there is no
    usable [tao] attribute and the leading token of [str(x)] does not
    parse. *)
Definition unconvertible (x : V) : Prop :=
  (has_tao x = false \/ float_of_tao x = None) /\ float_of_token x = None.

End BalanceGate.

(** A concrete universe of values: [None], a [bittensor.Balance] holding
    an integer amount of rao, and any other object without an ordering,
    given by what the conversions observe of it. *)
Inductive pyval : Type :=
| PyNone
| PyBalance (rao : Z)
| PyObject (tao : option (option PyFloat.t)) (token : option PyFloat.t).

Definition RAO_PER_TAO : Z := 1000000000.

#[global] Instance pyval_ops : PyValue pyval := {
  is_none v := match v with PyNone => true | _ => false end;
  py_lt a b :=
    match a, b with
    | PyBalance x, PyBalance y => Some (x <? y)
    | _, _ => None
    end;
  has_tao v :=
    match v with
    | PyBalance _ => true
    | PyObject (Some _) _ => true
    | _ => false
    end;
  float_of_tao v :=
    match v with
    | PyBalance r => Some (PyFloat.div_Z r RAO_PER_TAO)
    | PyObject (Some f) _ => f
    | _ => None
    end;
  float_of_token v :=
    match v with
    | PyObject _ tok => tok
    | _ => None
    end
}.


(** ** main.py: the block-height variant *)

Module Main.

(** *** Configuration *)
Definition NETUID : Z := 1.
Definition COLDKEY_NAMES : list string :=
  ["cold_1"; "cold_2"; "cold_3"; "cold_4"; "cold_5";
   "cold_6"; "cold_7"; "cold_8"; "cold_9"; "cold_10"]%string.
Definition MAX_WORKERS : nat := 8.
Definition USE_EPOCH_START : bool := true.

(** *** Exceptions, wallets and the environment *)

Inductive exn : Type :=
| SdkError (msg : string)
| ZeroDivisionError.

Definition str_exn (e : exn) : string :=
  match e with
  | SdkError msg => msg
  | ZeroDivisionError => "integer modulo by zero"
  end.

Inductive result (A : Type) : Type :=
| Ok (a : A)
| Raise (e : exn).
Arguments Ok {A} a.
Arguments Raise {A} e.

(** A wallet: its name and the two attribute reads the script makes,
    [coldkeypub.ss58_address] and [hotkey.ss58_address]. *)
Record wallet : Type := {
  name : string;
  coldkeypub : result string;
  hotkey : result string
}.

(** Calls and sleeps, in the order the model performs them. *)
Inductive event : Type :=
| Connect
| QueryBurnCost
| QueryBlock
| QueryMetagraph
| QueryBalance (address : string)
| SubmitRegister (wallet_name : string)
| QueryUid (hot : string)
| QueryRegistered (hot : string)
| Sleep (ms : Z).


(** One step of the race: the task of the i-th future starts, or the
    main thread evaluates the condition of its watch loop (and runs the
    body when it holds). *)
Inductive action : Type :=
| ATask (i : nat)
| ATick.

(** The answers of the SDK, of the keystore and of the clock. *)
Record env : Type := {
  connect : result unit;
  get_subnet_burn_cost : result pyval;
  (** the n-th call of [subtensor.get_current_block()] *)
  get_current_block : nat -> result Z;
  (** [subtensor.metagraph(netuid=NETUID).tempo] *)
  metagraph_tempo : result Z;
  (** [bt.wallet(name=n)] and [bt.wallet(name=n, hotkey=n)] *)
  wallet_by_name : string -> result wallet;
  wallet_by_hotkey : string -> result wallet;
  (** [time.time() > end_time] at the i-th turn of the dispatch loop *)
  dispatch_late : nat -> bool;
  (** [time.time() > end_time] when the task of this wallet starts *)
  task_late : string -> bool;
  get_balance : string -> result pyval;
  burned_register : string -> result string;
  (** [time.time() < end_time] at the n-th test of the watch loop *)
  watch_in_time : nat -> bool;
  (** the two membership queries, at the n-th turn of the watch loop *)
  get_uid_for_hotkey_on_subnet : nat -> string -> result (option Z);
  is_hotkey_registered_on_subnet : nat -> string -> result bool;
  (** the interleaving of the pool's tasks with the watch loop *)
  schedule : list action
}.

(** An entry of the [submitted] list: [(wallet.name, ok, info)]. *)
Definition attempt : Type := string * bool * string.

(** The variables of [main] shared between threads, the call counters
    and the trace. *)
Record state : Type := {
  block_calls : nat;
  tick_count : nat;
  watching : bool;
  submitted : list attempt;
  success : option (string * Z);
  success_event : bool;
  trace : list event
}.

Definition initial : state :=
  {| block_calls := 0; tick_count := 0; watching := true;
     submitted := []; success := None; success_event := false;
     trace := [] |}.

(** *** A state and exception monad *)

Inductive res (A : Type) : Type :=
| Ret (a : A) (s : state)
| Exc (e : exn) (s : state)
| OutOfFuel (s : state).
Arguments Ret {A} a s.
Arguments Exc {A} e s.
Arguments OutOfFuel {A} s.

Definition M (A : Type) : Type := state -> res A.

Definition ret {A} (a : A) : M A := fun s => Ret a s.

Definition bind {A B} (m : M A) (k : A -> M B) : M B :=
  fun s =>
    match m s with
    | Ret a s' => k a s'
    | Exc e s' => Exc e s'
    | OutOfFuel s' => OutOfFuel s'
    end.

Definition raise {A} (e : exn) : M A := fun s => Exc e s.

Definition add_event (ev : event) (s : state) : state :=
  {| block_calls := block_calls s; tick_count := tick_count s;
     watching := watching s; submitted := submitted s;
     success := success s; success_event := success_event s;
     trace := trace s ++ [ev] |}.

Definition emit (ev : event) : M unit := fun s => Ret tt (add_event ev s).

(** A call that may raise: the event is recorded, then the answer is
    returned or the exception propagates. *)
Definition call {A} (ev : event) (r : result A) : M A :=
  bind (emit ev) (fun _ =>
    match r with
    | Ok a => ret a
    | Raise e => raise e
    end).

(** [try: return c except Exception: return d]. *)
Definition try_except {A} (m : M A) (handler : exn -> M A) : M A :=
  fun s =>
    match m s with
    | Exc e s' => handler e s'
    | other => other
    end.

Definition final_state {A} (r : res A) : state :=
  match r with
  | Ret _ s => s
  | Exc _ s => s
  | OutOfFuel s => s
  end.

(** The computation ended by an exception leaving it. *)
Definition raises {A} (r : res A) : Prop :=
  match r with
  | Exc _ _ => True
  | _ => False
  end.

(** [m] relates every state it starts in to the state it ends in. *)
Definition preserves {A} (R : state -> state -> Prop) (m : M A) : Prop :=
  forall s, R s (final_state (m s)).

Definition gets {A} (f : state -> A) : M A := fun s => Ret (f s) s.

Definition modify (f : state -> state) : M unit := fun s => Ret tt (f s).

Notation "x <- m ;; k" := (bind m (fun x => k))
  (at level 61, m at next level, right associativity).
Notation "m ;; k" := (bind m (fun _ => k))
  (at level 61, right associativity).

(** *** State updates *)

Definition next_block_call (s : state) : state :=
  {| block_calls := S (block_calls s); tick_count := tick_count s;
     watching := watching s; submitted := submitted s;
     success := success s; success_event := success_event s;
     trace := trace s |}.

Definition next_tick (s : state) : state :=
  {| block_calls := block_calls s; tick_count := S (tick_count s);
     watching := watching s; submitted := submitted s;
     success := success s; success_event := success_event s;
     trace := trace s |}.

Definition stop_watching (s : state) : state :=
  {| block_calls := block_calls s; tick_count := tick_count s;
     watching := false; submitted := submitted s;
     success := success s; success_event := success_event s;
     trace := trace s |}.

(** [submitted.append(a)], under [submitted_lock]. *)
Definition append_submitted (a : attempt) (s : state) : state :=
  {| block_calls := block_calls s; tick_count := tick_count s;
     watching := watching s; submitted := submitted s ++ [a];
     success := success s; success_event := success_event s;
     trace := trace s |}.

(** The critical section under [success_lock]:
    [if not success_event.is_set(): success = payload; success_event.set()]. *)
Definition set_success (payload : string * Z) (s : state) : state :=
  if success_event s then s
  else
    {| block_calls := block_calls s; tick_count := tick_count s;
       watching := watching s; submitted := submitted s;
       success := Some payload; success_event := true;
       trace := trace s |}.

(** *** Helpers of main.py *)

Definition load_wallet (e : env) (n : string) : result wallet :=
  match wallet_by_name e n with
  | Ok w => Ok w
  | Raise _ => wallet_by_hotkey e n
  end.

Definition _get_registration_cost (e : env) : M pyval :=
  call QueryBurnCost (get_subnet_burn_cost e).

Definition _get_wallet_balance (e : env) (w : wallet) : M pyval :=
  match coldkeypub w with
  | Raise _ => ret PyNone
  | Ok address =>
      try_except (call (QueryBalance address) (get_balance e address))
                 (fun _ => ret PyNone)
  end.

Definition _try_register (e : env) (w : wallet) : M (bool * string) :=
  try_except
    (res <- call (SubmitRegister (name w)) (burned_register e (name w)) ;;
     ret (true, res))
    (fun ex => ret (false, str_exn ex)).

Definition _get_uid_for_hotkey (e : env) (t : nat) (hot : string)
  : M (option Z) :=
  try_except
    (call (QueryUid hot) (get_uid_for_hotkey_on_subnet e t hot))
    (fun _ =>
       try_except
         (ok <- call (QueryRegistered hot)
                     (is_hotkey_registered_on_subnet e t hot) ;;
          ret (if ok then Some 1 else None))
         (fun _ => ret None)).

Definition _get_current_block (e : env) : M (option Z) :=
  k <- gets block_calls ;;
  modify next_block_call ;;
  try_except
    (b <- call QueryBlock (get_current_block e k) ;; ret (Some b))
    (fun _ => ret None).

(** *** The window scheduler *)

(** Python's [a % b] on ints: the sign of the result follows [b], as
    [Z.modulo] does; a zero divisor raises. *)
Definition py_mod (a b : Z) : M Z :=
  if b =? 0 then raise ZeroDivisionError else ret (a mod b).

(** Lines 114-116: [(blocks_until, target_block)]. *)
Definition epoch_target (block epoch_length : Z) : M (Z * Z) :=
  remainder <- py_mod block epoch_length ;;
  blocks_until <- py_mod (epoch_length - remainder) epoch_length ;;
  ret (blocks_until, block + blocks_until).

(** The coarse loop: poll every 2 s until within one block of target. *)
Fixpoint coarse_wait (fuel : nat) (e : env) (target_block : Z) : M unit :=
  match fuel with
  | O => fun s => OutOfFuel s
  | S fuel' =>
      now_block <- _get_current_block e ;;
      match now_block with
      | None => ret tt
      | Some nb =>
          if nb >=? target_block - 1 then ret tt
          else emit (Sleep 2000) ;; coarse_wait fuel' e target_block
      end
  end.

(** The fine loop: poll every 10 ms until the target block. *)
Fixpoint fine_wait (fuel : nat) (e : env) (target_block : Z) : M unit :=
  match fuel with
  | O => fun s => OutOfFuel s
  | S fuel' =>
      now_block <- _get_current_block e ;;
      match now_block with
      | None => ret tt
      | Some nb =>
          if nb >=? target_block then ret tt
          else emit (Sleep 10) ;; fine_wait fuel' e target_block
      end
  end.

Definition _wait_for_next_epoch_start (fuel : nat) (e : env) : M unit :=
  block <- _get_current_block e ;;
  epoch_length <- call QueryMetagraph (metagraph_tempo e) ;;
  match block with
  | None => ret tt
  | Some block =>
      bt <- epoch_target block epoch_length ;;
      if fst bt =? 0 then ret tt
      else coarse_wait fuel e (snd bt) ;; fine_wait fuel e (snd bt)
  end.

(** *** Loading the wallets (lines 150-165) *)

(** One turn of the loop over [COLDKEY_NAMES]: what is appended. *)
Definition load_one (e : env) (n : string) : list wallet :=
  match load_wallet e n with
  | Raise _ => []
  | Ok w =>
      match hotkey w with
      | Ok _ => [w]
      | Raise _ =>
          match wallet_by_hotkey e n with
          | Ok w' => [w']
          | Raise _ => [w]
          end
      end
  end.

Definition load_wallets (e : env) (names : list string) : list wallet :=
  flat_map (load_one e) names.

(** *** The race (lines 171-231) *)

(** [submit_one(wallet)]: the body of a pool task. *)
Definition submit_one (e : env) (burn_cost : pyval) (w : wallet)
  : M (option string) :=
  is_set <- gets success_event ;;
  if is_set || task_late e (name w) then ret None
  else
    bal <- try_except (_get_wallet_balance e w) (fun _ => ret PyNone) ;;
    if balance_gate bal burn_cost then
      r <- _try_register e w ;;
      modify (append_submitted (name w, fst r, snd r)) ;;
      ret (Some (snd r))
    else ret None.

(** The dispatch loop: wallets are handed to the pool until the clock
    passes [end_time]. *)
Fixpoint dispatch (e : env) (i : nat) (ws : list wallet) : list wallet :=
  match ws with
  | [] => []
  | w :: rest =>
      if dispatch_late e i then [] else w :: dispatch e (S i) rest
  end.

(** The [for w in wallets] loop inside the watch loop. *)
Fixpoint scan_wallets (e : env) (ws : list wallet) : M unit :=
  match ws with
  | [] => ret tt
  | w :: rest =>
      match hotkey w with
      | Raise _ => scan_wallets e rest
      | Ok hot =>
          t <- gets tick_count ;;
          uid <- _get_uid_for_hotkey e t hot ;;
          match uid with
          | None => scan_wallets e rest
          | Some u =>
              if u =? 0 then scan_wallets e rest
              else modify (set_success (name w, u))
          end
      end
  end.

(** One evaluation of the [while] condition of the watch loop, with the
    body and the 0.2 s sleep when it holds. *)
Definition watch_step (e : env) (wallets : list wallet) : M unit :=
  on <- gets watching ;;
  if on then
    t <- gets tick_count ;;
    is_set <- gets success_event ;;
    if watch_in_time e t && negb is_set then
      scan_wallets e wallets ;; emit (Sleep 200) ;; modify next_tick
    else modify stop_watching
  else ret tt.

(** One step of the interleaving: [ATask i] runs the i-th future, the
    whole body of [submit_one] in one piece; [ATick] is a look of the
    watch loop. Tasks that overlap each other or the watch loop are run
    step by step in [Pool] below, where [Atomic.race_in_one_piece]
    relates the two. *)
Definition step (e : env) (burn_cost : pyval) (wallets futures : list wallet)
  (a : action) : M unit :=
  match a with
  | ATask i =>
      match nth_error futures i with
      | Some w => submit_one e burn_cost w ;; ret tt
      | None => ret tt
      end
  | ATick => watch_step e wallets
  end.

Fixpoint race (e : env) (burn_cost : pyval) (wallets futures : list wallet)
  (sched : list action) : M unit :=
  match sched with
  | [] => ret tt
  | a :: rest =>
      step e burn_cost wallets futures a ;;
      race e burn_cost wallets futures rest
  end.

(** The future an action starts, if any. *)
Definition task_of (futures : list wallet) (a : action) : list wallet :=
  match a with
  | ATask i =>
      match nth_error futures i with
      | Some w => [w]
      | None => []
      end
  | ATick => []
  end.

(** The futures a schedule starts, in order. *)
Definition tasks_run (futures : list wallet) (sched : list action)
  : list wallet :=
  flat_map (task_of futures) sched.

(** Every future runs once: what the pool and the drain of lines 229-231
    guarantee of a complete execution. *)
Definition complete (futures : list wallet) (sched : list action) : Prop :=
  Permutation (tasks_run futures sched) futures.

(** *** main *)

(** [main] over a whole schedule: the outcome is read after the last
    action of the schedule, which stands for the execution up to the end
    of the [with] block. The wait of the main thread in the drain (lines
    229-231) is a step of its own in [Pool.main]. *)

Inductive report : Type :=
| NoWallets
| Registered (winner : string * Z)
| NoRegistration (log : list attempt).

Definition final_report (s : state) : report :=
  match success_event s, success s with
  | true, Some winner => Registered winner
  | _, _ => NoRegistration (submitted s)
  end.

Definition main (fuel : nat) (e : env) : M report :=
  call Connect (connect e) ;;
  burn_cost <- _get_registration_cost e ;;
  (if USE_EPOCH_START then _wait_for_next_epoch_start fuel e else ret tt) ;;
  let wallets := load_wallets e COLDKEY_NAMES in
  match wallets with
  | [] => ret NoWallets
  | _ :: _ =>
      let futures := dispatch e 0 wallets in
      race e burn_cost wallets futures (schedule e) ;;
      gets final_report
  end.

(** The records of one identity in a log. *)
Definition records_of (n : string) (log : list attempt) : list attempt :=
  filter (fun a => String.eqb (fst (fst a)) n) log.

(** The wallets of one name in a list. *)
Definition named (n : string) (ws : list wallet) : list wallet :=
  filter (fun w => String.eqb (name w) n) ws.

(** The submissions made for one identity in a trace. *)
Definition submissions_of (n : string) (tr : list event) : list event :=
  filter (fun ev =>
            match ev with
            | SubmitRegister m => String.eqb m n
            | _ => false
            end) tr.

(** Events of the setup: the connection, the cost query, the
    scheduler's queries and its sleeps. *)
Definition setup_event (ev : event) : bool :=
  match ev with
  | Connect | QueryBurnCost | QueryBlock | QueryMetagraph | Sleep _ => true
  | _ => false
  end.

(** Setters reaching the critical section in the order of [setters]. *)
Definition set_all (setters : list (string * Z)) (s : state) : state :=
  fold_left (fun acc payload => set_success payload acc) setters s.

End Main.

(** ** Futures of a thread pool *)

Module Futures.

(** How a finished future ended: [fut.result()] returns a value, seen
    through its truth value, or raises. *)
Inductive fut_result : Type :=
| Returned (truthy : bool)
| Failed.

(** [status n i]: the state of future [i] when the main thread looks at
    the pool for the n-th time; [None] while it is still running. *)
Definition status : Type := nat -> nat -> option fut_result.

Definition finished (st : status) (n i : nat) : bool :=
  match st n i with
  | Some _ => true
  | None => false
  end.

(** [for _ in as_completed(futures): pass]: the iterator ends when no
    future is left running. Returns the look at which it ended. *)
Fixpoint as_completed (fuel : nat) (st : status) (n : nat)
  (futures : list nat) : option nat :=
  match futures with
  | [] => Some n
  | _ :: _ =>
      match fuel with
      | O => None
      | S fuel' =>
          as_completed fuel' st (S n)
            (filter (fun i => negb (finished st n i)) futures)
      end
  end.

End Futures.

(** ** monkey.py: the wall-clock variant *)

Module Monkey.
Import Futures.

Definition CYCLE_BLOCKS : Z := 360.
Definition BLOCK_TIME_S : Z := 12.
Definition cycle_seconds : Z := CYCLE_BLOCKS * BLOCK_TIME_S.

(** Datetimes are counted in microseconds, the resolution of
    [datetime]; [timedelta(seconds=n)] is [n * 10^6] of them. *)
Definition timedelta_seconds (n : Z) : Z := n * 1000000.

(** [timedelta(seconds=cycle_seconds)]. *)
Definition cycle : Z := timedelta_seconds cycle_seconds.

(** Lines 148-149:
    [while target_dt <= now_dt: target_dt += timedelta(seconds=cycle_seconds)]. *)
Equations? advance (target_dt now_dt : Z) : Z
  by wf (Z.to_nat (now_dt - target_dt + 1)) lt :=
  advance target_dt now_dt with Z_le_gt_dec target_dt now_dt => {
    | left _ := advance (target_dt + timedelta_seconds cycle_seconds) now_dt;
    | right _ := target_dt }.
Proof.
  unfold timedelta_seconds, cycle_seconds, CYCLE_BLOCKS, BLOCK_TIME_S. lia.
Qed.

(** Lines 144-149: the target of the next window. *)
Definition next_target (last_dt now_dt : Z) : Z := advance last_dt now_dt.

(** Lines 185-191: the scan of [done], stopping at the first truthy
    result; a raising future is logged and skipped. *)
Fixpoint scan_done (results : list (option fut_result)) : bool :=
  match results with
  | [] => false
  | Some (Returned true) :: _ => true
  | _ :: rest => scan_done rest
  end.

(** Lines 183-192: [while futures and not success]. Each turn calls
    [wait(futures, timeout=1, return_when=FIRST_COMPLETED)], scans the
    finished futures and keeps the pending ones. Returns the final
    [(success, futures)] and the number of looks made. *)
Fixpoint wait_loop (fuel : nat) (st : status) (n : nat)
  (futures : list nat) (success : bool) : option (bool * list nat * nat) :=
  match futures, success with
  | _ :: _, false =>
      match fuel with
      | O => None
      | S fuel' =>
          let done := filter (finished st n) futures in
          let pending := filter (fun i => negb (finished st n i)) futures in
          wait_loop fuel' st (S n) pending (scan_done (map (st n) done))
      end
  | _, _ => Some (success, futures, n)
  end.

(** What a window leaves behind: [executor.shutdown(wait=False)] returns
    at once, so the futures still in the list keep running. *)
Record window_end : Type := {
  won : bool;
  still_running : list nat;
  looks : nat
}.

Definition run_window (fuel : nat) (st : status) (futures : list nat)
  : option window_end :=
  match wait_loop fuel st 0 futures false with
  | Some (success, rest, n) =>
      Some {| won := success; still_running := rest; looks := n |}
  | None => None
  end.

End Monkey.


(** ** Relations between a state and a later one *)

Module Later.
Import Main.

(** A signal that is set stays set, with its payload. *)
Definition keeps_signal (s s' : state) : Prop :=
  success_event s = true ->
  success s' = success s /\ success_event s' = true.

(** The log is untouched. *)
Definition same_log (s s' : state) : Prop := submitted s' = submitted s.

(** The trace grew by events satisfying [P] only. *)
Definition adds_only (P : event -> bool) (s s' : state) : Prop :=
  exists l, trace s' = trace s ++ l /\ forallb P l = true.

(** Every identity got as many new records as new submissions. *)
Definition record_per_submission (s s' : state) : Prop :=
  forall n : string,
    (List.length (records_of n (submitted s'))
     + List.length (submissions_of n (trace s))
     = List.length (records_of n (submitted s))
       + List.length (submissions_of n (trace s')))%nat.

(** A step of the setup: the trace grew by setup events only and the log
    is untouched. *)
Definition setup_only (s s' : state) : Prop :=
  adds_only setup_event s s' /\ same_log s s'.

End Later.

(** ** Invariants of the race *)

Module Invariants.
Import Main.

(** A payload of the signal that a membership lookup accounts for: the
    name is that of a wallet of the list with a readable hotkey, and the
    index is not 0 and is what the direct query answered for that hotkey
    at some turn of the watch loop, or it is 1 and at that turn the
    direct query raised and the fallback answered true. *)
Definition winner_ok (e : env) (wallets : list wallet) (p : string * Z)
  : Prop :=
  snd p <> 0
  /\ exists w hot t,
      In w wallets /\ name w = fst p /\ hotkey w = Ok hot
      /\ (get_uid_for_hotkey_on_subnet e t hot = Ok (Some (snd p))
          \/ (snd p = 1
              /\ (exists x, get_uid_for_hotkey_on_subnet e t hot = Raise x)
              /\ is_hotkey_registered_on_subnet e t hot = Ok true)).

Definition signal_ok (e : env) (wallets : list wallet) (s : state) : Prop :=
  (success_event s = true <-> success s <> None)
  /\ forall p, success s = Some p -> winner_ok e wallets p.

(** A record that tells what happened: it names a dispatched wallet, and
    it holds the result of [burned_register] for that name when the flag
    is true, the message of its exception when the flag is false. *)
Definition record_ok (e : env) (futures : list wallet) (a : attempt) : Prop :=
  In (fst (fst a)) (map name futures)
  /\ (snd (fst a) = true -> burned_register e (fst (fst a)) = Ok (snd a))
  /\ (snd (fst a) = false ->
      exists x,
        burned_register e (fst (fst a)) = Raise x /\ snd a = str_exn x).

Definition log_ok (e : env) (futures : list wallet) (s : state) : Prop :=
  Forall (record_ok e futures) (submitted s).

(** The signal is untouched. *)
Definition same_signal (s s' : state) : Prop :=
  success s' = success s /\ success_event s' = success_event s.

End Invariants.

(** ** monkey.py: from one window to the next *)

Module MonkeyCycle.
Import Monkey.

(** Line 199 followed by line 144 of the next turn:
    [strptime(target_dt.strftime("%Y-%m-%d %H:%M:%S"), ...)]. The format
    has no fraction of a second, so the microseconds are dropped. *)
Definition reparse (dt : Z) : Z := dt - dt mod 1000000.

(** The targets of successive windows without success, the i-th window
    computing its target at time [nows[i]]. *)
Fixpoint targets (last_dt : Z) (nows : list Z) : list Z :=
  match nows with
  | [] => []
  | now_dt :: rest =>
      let target_dt := next_target last_dt now_dt in
      target_dt :: targets (reparse target_dt) rest
  end.

End MonkeyCycle.

(** ** monkey.py: the hotkey names of the command line *)

Module HotkeyNames.

Section Chars.
(** Characters, with their equality test and [str.isspace]. *)
Variable char : Type.
Variable eqb : char -> char -> bool.
Variable isspace : char -> bool.

(** [s.split(sep)] for a separator of one character. *)
Fixpoint split (sep : char) (s : list char) : list (list char) :=
  match s with
  | [] => [[]]
  | c :: rest =>
      if eqb c sep then [] :: split sep rest
      else
        match split sep rest with
        | first :: others => (c :: first) :: others
        | [] => [[c]]
        end
  end.

(** [sep.join(parts)]. *)
Fixpoint join (sep : char) (parts : list (list char)) : list char :=
  match parts with
  | [] => []
  | [p] => p
  | p :: rest => p ++ sep :: join sep rest
  end.

(** [s.lstrip()], [s.rstrip()] and [s.strip()]. *)
Fixpoint lstrip (s : list char) : list char :=
  match s with
  | [] => []
  | c :: rest => if isspace c then lstrip rest else s
  end.

Definition rstrip (s : list char) : list char := rev (lstrip (rev s)).

Definition strip (s : list char) : list char := rstrip (lstrip s).

(** Line 79: [[hk.strip() for hk in args.hotkeys.split(",")]]. *)
Definition hotkey_names (comma : char) (hotkeys : list char)
  : list (list char) :=
  map strip (split comma hotkeys).

(** The occurrences of a character. *)
Definition occurrences (c : char) (s : list char) : nat :=
  List.length (filter (fun d => eqb d c) s).

End Chars.

(** ASCII characters; the white space among them is what
    [str.isspace] accepts below 128: tab, line feed, vertical tab, form
    feed, carriage return, the four separators 28-31 and the space. *)
Definition ascii_isspace (c : Ascii.ascii) : bool :=
  let n := Ascii.nat_of_ascii c in
  ((9 <=? n) && (n <=? 13) || (28 <=? n) && (n <=? 32))%nat.

(** The comma, character 44. *)
Definition comma : Ascii.ascii := Ascii.ascii_of_nat 44.

Definition ascii_names (hotkeys : string) : list string :=
  map string_of_list_ascii
    (hotkey_names Ascii.ascii Ascii.eqb ascii_isspace comma
       (list_ascii_of_string hotkeys)).

End HotkeyNames.

(** ** monkey.py: wallets and connections before the first window *)

Module MonkeySetup.
Import Main.

(** The keystore and the node as the set-up sees them. A wallet is known
    by its hotkey name, a connection by the rank of the
    [bt.Subtensor(...)] call that made it. *)
Record env : Type := {
  (** [bt.wallet(name=wallet_name, hotkey=hk)] *)
  make_wallet : string -> result unit;
  (** [w.unlock_coldkey()] *)
  unlock_coldkey : string -> result unit;
  (** the n-th [bt.Subtensor(network=args.network)] *)
  new_subtensor : nat -> result unit;
  (** [sub.block] and [s.get_current_block()] on a connection *)
  current_block : nat -> result Z
}.

Inductive event : Type :=
| Open (conn : nat)
| ReadBlock (conn : nat).

(** Lines 82-87: the loop inside the [try]. *)
Fixpoint unlock_all (e : env) (hotkey_names wallets : list string)
  : result (list string) :=
  match hotkey_names with
  | [] => Ok wallets
  | hk :: rest =>
      match make_wallet e hk with
      | Raise x => Raise x
      | Ok _ =>
          match unlock_coldkey e hk with
          | Raise x => Raise x
          | Ok _ => unlock_all e rest (wallets ++ [hk])
          end
      end
  end.

(** How the set-up ends: [sys.exit(code)], an exception that nothing
    catches, or the wallets with the main connection and the list
    [subs_for_wallets]. *)
Inductive setup_end : Type :=
| SysExit (code : Z) (tr : list event)
| Uncaught (x : exn) (tr : list event)
| Ready (wallets : list string) (sub : nat) (subs_for_wallets : list nat)
    (tr : list event).

(** Lines 104-112: one connection per wallet, touched once. *)
Fixpoint connect_each (e : env) (todo : list string) (next : nat)
  (subs : list nat) (tr : list event)
  : exn * list event + list nat * list event :=
  match todo with
  | [] => inr (subs, tr)
  | _ :: rest =>
      match new_subtensor e next with
      | Raise x => inl (x, tr ++ [Open next])
      | Ok _ =>
          connect_each e rest (S next) (subs ++ [next])
            (tr ++ [Open next; ReadBlock next])
      end
  end.

(** Lines 81-112. *)
Definition setup (e : env) (hotkey_names : list string) : setup_end :=
  match unlock_all e hotkey_names [] with
  | Raise _ => SysExit 1 []
  | Ok wallets =>
      match new_subtensor e 0 with
      | Raise x => Uncaught x [Open 0%nat]
      | Ok _ =>
          match current_block e 0 with
          | Raise x => Uncaught x [Open 0%nat; ReadBlock 0%nat]
          | Ok _ =>
              match connect_each e wallets 1 []
                      [Open 0%nat; ReadBlock 0%nat] with
              | inl (x, tr) => Uncaught x tr
              | inr (subs, tr) => Ready wallets 0%nat subs tr
              end
          end
      end
  end.

(** Line 180: [subs_for_wallets[idx]] for [idx, w in enumerate(wallets)];
    [None] stands for an [IndexError]. *)
Fixpoint launch_args (wallets : list string) (subs : list nat) (idx : nat)
  : option (list (string * nat)) :=
  match wallets with
  | [] => Some []
  | w :: rest =>
      match nth_error subs idx, launch_args rest subs (S idx) with
      | Some conn, Some args => Some ((w, conn) :: args)
      | _, _ => None
      end
  end.

(** A hotkey name for which the wallet is made and unlocked. *)
Definition usable (e : env) (hk : string) : Prop :=
  (exists u, make_wallet e hk = Ok u) /\ (exists u, unlock_coldkey e hk = Ok u).

End MonkeySetup.

(** ** Floats that are not below zero *)

Module FloatSign.

(** Zeros of either sign, positive numbers, plus infinity and NaN. *)
Definition not_negative (f : PyFloat.t) : Prop :=
  match f with
  | S754_infinity true => False
  | S754_finite true _ _ => False
  | _ => True
  end.

End FloatSign.

(** ** What a turn of the watch loop sees of a wallet *)

Module Lookup.
Import Main.

(** The value [_get_uid_for_hotkey] returns at turn [t]. *)
Definition uid_answer (e : env) (t : nat) (hot : string) : option Z :=
  match get_uid_for_hotkey_on_subnet e t hot with
  | Ok answer => answer
  | Raise _ =>
      match is_hotkey_registered_on_subnet e t hot with
      | Ok true => Some 1
      | _ => None
      end
  end.

(** The wallet passes the test of line 221 at turn [t]. *)
Definition qualifies (e : env) (t : nat) (w : wallet) : bool :=
  match hotkey w with
  | Raise _ => false
  | Ok hot =>
      match uid_answer e t hot with
      | Some u => negb (u =? 0)
      | None => false
      end
  end.

End Lookup.

(** ** main.py: the pool at the grain of its shared accesses *)

(** [Main.race] runs the body of a task in one step. Here a task takes
    its steps one at a time, cut where it meets the other threads: the
    test of line 181, the balance query and the gate (lines 183-191),
    the submission (line 192) and the locked append with the return
    (lines 193-199). The main thread runs its watch loop, then blocks in
    the drain of lines 229-231 and in the exit of the [with] block until
    every future is finished, and only then evaluates the outcome. *)
Module Pool.
Import Main.

(** Where a future is. *)
Inductive stage : Type :=
| Queued
| AtBalance
| AtRegister
| AtAppend (ok : bool) (info : string)
| Finished (ret : option string).

Definition finished (st : stage) : bool :=
  match st with
  | Finished _ => true
  | _ => false
  end.


(** The stage of each future, by index, and whether the main thread has
    left the [with] block. *)
Record pool : Type := {
  stages : list stage;
  drained : bool
}.

Definition start (futures : list wallet) : pool :=
  {| stages := map (fun _ => Queued) futures; drained := false |}.

(** The next step of the task of wallet [w]. *)
Definition task_step (e : env) (burn_cost : pyval) (w : wallet) (st : stage)
  : M stage :=
  match st with
  | Queued =>
      is_set <- gets success_event ;;
      if is_set || task_late e (name w) then ret (Finished None)
      else ret AtBalance
  | AtBalance =>
      bal <- try_except (_get_wallet_balance e w) (fun _ => ret PyNone) ;;
      if balance_gate bal burn_cost then ret AtRegister
      else ret (Finished None)
  | AtRegister =>
      r <- _try_register e w ;;
      ret (AtAppend (fst r) (snd r))
  | AtAppend ok info =>
      modify (append_submitted (name w, ok, info)) ;;
      ret (Finished (Some info))
  | Finished r => ret (Finished r)
  end.

(** [l[i] = x], where [i] is in range. *)
Fixpoint update {A : Type} (i : nat) (x : A) (l : list A) : list A :=
  match l, i with
  | [], _ => []
  | _ :: rest, O => x :: rest
  | y :: rest, S j => y :: update j x rest
  end.

Definition set_stage (i : nat) (st : stage) (p : pool) : pool :=
  {| stages := update i st (stages p); drained := drained p |}.

(** A step of the main thread: a turn of the watch loop while it runs;
    after it, the drain and the exit of the [with] block, which go
    through once every future is finished and block until then. *)
Definition main_step (e : env) (wallets : list wallet) (p : pool) : M pool :=
  on <- gets watching ;;
  if on then watch_step e wallets ;; ret p
  else if drained p then ret p
  else ret {| stages := stages p; drained := forallb finished (stages p) |}.

(** One step of the interleaving: [ATask i] is the next step of the i-th
    future, [ATick] a step of the main thread. *)
Definition step (e : env) (burn_cost : pyval) (wallets futures : list wallet)
  (a : action) (p : pool) : M pool :=
  match a with
  | ATask i =>
      match nth_error futures i, nth_error (stages p) i with
      | Some w, Some st =>
          st' <- task_step e burn_cost w st ;;
          ret (set_stage i st' p)
      | _, _ => ret p
      end
  | ATick => main_step e wallets p
  end.

Fixpoint race (e : env) (burn_cost : pyval) (wallets futures : list wallet)
  (sched : list action) (p : pool) : M pool :=
  match sched with
  | [] => ret p
  | a :: rest =>
      p' <- step e burn_cost wallets futures a p ;;
      race e burn_cost wallets futures rest p'
  end.

(** [main], with the outcome evaluated only after the main thread has
    left the [with] block; a schedule that ends before that is a run cut
    short. *)
Definition main (fuel : nat) (e : env) : M report :=
  call Connect (connect e) ;;
  burn_cost <- _get_registration_cost e ;;
  (if USE_EPOCH_START then _wait_for_next_epoch_start fuel e else ret tt) ;;
  let wallets := load_wallets e COLDKEY_NAMES in
  match wallets with
  | [] => ret NoWallets
  | _ :: _ =>
      let futures := dispatch e 0 wallets in
      p <- race e burn_cost wallets futures (schedule e) (start futures) ;;
      if drained p then gets final_report
      else fun s => OutOfFuel s
  end.

(** The four steps of a task, back to back. *)
Definition run_task (e : env) (burn_cost : pyval) (w : wallet) : M stage :=
  st1 <- task_step e burn_cost w Queued ;;
  st2 <- task_step e burn_cost w st1 ;;
  st3 <- task_step e burn_cost w st2 ;;
  task_step e burn_cost w st3.

(** A schedule of whole tasks as a schedule of steps: the four steps of
    each task back to back. *)
Definition expand (sched : list action) : list action :=
  flat_map (fun a =>
              match a with
              | ATask i => [ATask i; ATask i; ATask i; ATask i]
              | ATick => [ATick]
              end) sched.

(** The j-th future has returned. *)
Definition done (p : pool) (j : nat) : Prop :=
  exists r, nth_error (stages p) j = Some (Finished r).

(** Every future in turn takes the steps it has left. *)
Definition finish_all (n : nat) : list action :=
  expand (map ATask (seq 0 n)).

(** The futures a schedule names, in order. *)
Definition task_ids (sched : list action) : list nat :=
  flat_map (fun a =>
              match a with
              | ATask i => [i]
              | ATick => []
              end) sched.




End Pool.
(** ** Sample environments *)

Module Samples.
Import Main.

(** An amount held in a degraded representation: a value the typed
    comparison does not accept, without a [tao] attribute, whose [str]
    starts with a token that [float] reads as [f]. *)
Definition py_float (f : PyFloat.t) : pyval := PyObject None (Some f).

Definition one : PyFloat.t := PyFloat.of_Z 1.
Definition half : PyFloat.t := PyFloat.div_Z 1 2.

Definition unreachable : exn := SdkError "connection refused".

(** A keystore entry with both keys readable. *)
Definition stored (n : string) : wallet :=
  {| name := n; coldkeypub := Ok ("5C_" ++ n)%string;
     hotkey := Ok ("5H_" ++ n)%string |}.

(** The node is unreachable for every query; the keystore is intact. *)
Definition node_down : env :=
  {| connect := Ok tt;
     get_subnet_burn_cost := Ok (PyBalance 1000000000);
     get_current_block := fun _ => Raise unreachable;
     metagraph_tempo := Raise unreachable;
     wallet_by_name := fun n => Ok (stored n);
     wallet_by_hotkey := fun n => Ok (stored n);
     dispatch_late := fun _ => false;
     task_late := fun _ => false;
     get_balance := fun _ => Raise unreachable;
     burned_register := fun _ => Raise unreachable;
     watch_in_time := fun n => (n <? 2)%nat;
     get_uid_for_hotkey_on_subnet := fun _ _ => Raise unreachable;
     is_hotkey_registered_on_subnet := fun _ _ => Raise unreachable;
     schedule := [] |}.


(** Three wallets in the keystore. *)
Definition three_wallets (n : string) : result wallet :=
  if existsb (String.eqb n) ["cold_1"; "cold_2"; "cold_3"]%string
  then Ok (stored n)
  else Raise (SdkError "keyfile not found").

(** The chain stands at an epoch boundary; three wallets load, all with
    5 TAO against a cost of 1 TAO; the node takes the registration of
    [cold_2] and rejects the others; from the second turn of the watch
    loop on, the hotkey of [cold_2] has uid 7. *)
Definition cold_2_wins : env :=
  {| connect := Ok tt;
     get_subnet_burn_cost := Ok (PyBalance 1000000000);
     get_current_block := fun _ => Ok 720;
     metagraph_tempo := Ok 360;
     wallet_by_name := three_wallets;
     wallet_by_hotkey := three_wallets;
     dispatch_late := fun _ => false;
     task_late := fun _ => false;
     get_balance := fun _ => Ok (PyBalance 5000000000);
     burned_register := fun n =>
       if String.eqb n "cold_2" then Ok "True"%string
       else Raise (SdkError "TooManyRegistrationsThisBlock");
     watch_in_time := fun n => (n <? 10)%nat;
     get_uid_for_hotkey_on_subnet := fun t hot =>
       if (1 <=? t)%nat && String.eqb hot "5H_cold_2" then Ok (Some 7)
       else Ok None;
     is_hotkey_registered_on_subnet := fun _ _ => Ok false;
     schedule := [ATask 0; ATask 1; ATick; ATick; ATask 2; ATick] |}.

(** As [cold_2_wins], but every wallet holds 0.5 TAO. *)
Definition all_poor : env :=
  {| connect := Ok tt;
     get_subnet_burn_cost := Ok (PyBalance 1000000000);
     get_current_block := fun _ => Ok 720;
     metagraph_tempo := Ok 360;
     wallet_by_name := three_wallets;
     wallet_by_hotkey := three_wallets;
     dispatch_late := fun _ => false;
     task_late := fun _ => false;
     get_balance := fun _ => Ok (PyBalance 500000000);
     burned_register := fun _ => Ok "True"%string;
     watch_in_time := fun n => (n <? 2)%nat;
     get_uid_for_hotkey_on_subnet := fun _ _ => Ok None;
     is_hotkey_registered_on_subnet := fun _ _ => Ok false;
     schedule := [ATask 0; ATick; ATask 1; ATask 2; ATick; ATick] |}.

(** The direct uid query fails for every hotkey, the fallback answers
    that the hotkey of [cold_1] is registered. *)
Definition uid_query_broken : env :=
  {| connect := Ok tt;
     get_subnet_burn_cost := Ok (PyBalance 1000000000);
     get_current_block := fun _ => Ok 720;
     metagraph_tempo := Ok 360;
     wallet_by_name := three_wallets;
     wallet_by_hotkey := three_wallets;
     dispatch_late := fun _ => false;
     task_late := fun _ => false;
     get_balance := fun _ => Ok (PyBalance 5000000000);
     burned_register := fun _ => Raise (SdkError "AlreadyRegistered");
     watch_in_time := fun n => (n <? 2)%nat;
     get_uid_for_hotkey_on_subnet := fun _ _ =>
       Raise (SdkError "method not found");
     is_hotkey_registered_on_subnet := fun _ hot =>
       Ok (String.eqb hot "5H_cold_1");
     schedule := [ATask 0; ATask 1; ATask 2; ATick; ATick] |}.

(** As [uid_query_broken] with the direct query answering uid 0. *)
Definition uid_zero : env :=
  {| connect := Ok tt;
     get_subnet_burn_cost := Ok (PyBalance 1000000000);
     get_current_block := fun _ => Ok 720;
     metagraph_tempo := Ok 360;
     wallet_by_name := three_wallets;
     wallet_by_hotkey := three_wallets;
     dispatch_late := fun _ => false;
     task_late := fun _ => false;
     get_balance := fun _ => Ok (PyBalance 5000000000);
     burned_register := fun _ => Raise (SdkError "AlreadyRegistered");
     watch_in_time := fun n => (n <? 2)%nat;
     get_uid_for_hotkey_on_subnet := fun _ _ => Ok (Some 0);
     is_hotkey_registered_on_subnet := fun _ _ => Ok true;
     schedule := [ATask 0; ATask 1; ATask 2; ATick; ATick; ATick] |}.

(** Two futures: the first has returned [True] at every look, the
    second never finishes. *)
Definition first_wins : Futures.status :=
  fun _ i =>
    match i with
    | O => Some (Futures.Returned true)
    | _ => None
    end.

(** Three futures failing one after the other: future [i] has returned
    [False] from look [i] on. *)
Definition all_fail : Futures.status :=
  fun n i => if (i <=? n)%nat then Some (Futures.Returned false) else None.

End Samples.


(** ** More sample environments *)

Module MoreSamples.
Import Main.

(** The chain advances by one block between two polls, from height 725,
    with a tempo of 10; the keystore holds three wallets. *)
Definition ticking : env :=
  {| connect := Ok tt;
     get_subnet_burn_cost := Ok (PyBalance 1000000000);
     get_current_block := fun k => Ok (725 + Z.of_nat k);
     metagraph_tempo := Ok 10;
     wallet_by_name := Samples.three_wallets;
     wallet_by_hotkey := Samples.three_wallets;
     dispatch_late := fun _ => false;
     task_late := fun _ => false;
     get_balance := fun _ => Ok (PyBalance 5000000000);
     burned_register := fun _ => Ok "True"%string;
     watch_in_time := fun n => (n <? 2)%nat;
     get_uid_for_hotkey_on_subnet := fun _ _ => Ok None;
     is_hotkey_registered_on_subnet := fun _ _ => Ok false;
     schedule := [ATask 0; ATask 1; ATask 2; ATick; ATick; ATick] |}.

End MoreSamples.

Module SetupSamples.
Import Main.

(** Every key unlocks and every connection opens. *)
Definition all_fine : MonkeySetup.env :=
  {| MonkeySetup.make_wallet := fun _ => Ok tt;
     MonkeySetup.unlock_coldkey := fun _ => Ok tt;
     MonkeySetup.new_subtensor := fun _ => Ok tt;
     MonkeySetup.current_block := fun _ => Ok 6400000 |}.

(** The coldkey does not unlock for the hotkey [hk1]. *)
Definition wrong_password : MonkeySetup.env :=
  {| MonkeySetup.make_wallet := fun _ => Ok tt;
     MonkeySetup.unlock_coldkey := fun hk =>
       if String.eqb hk "hk1" then Raise (SdkError "Invalid password")
       else Ok tt;
     MonkeySetup.new_subtensor := fun _ => Ok tt;
     MonkeySetup.current_block := fun _ => Ok 6400000 |}.

End SetupSamples.

Module PoolSamples.
Import Main.

(** An environment with another interleaving. *)
Definition with_schedule (e : env) (sched : list action) : env :=
  {| connect := connect e;
     get_subnet_burn_cost := get_subnet_burn_cost e;
     get_current_block := get_current_block e;
     metagraph_tempo := metagraph_tempo e;
     wallet_by_name := wallet_by_name e;
     wallet_by_hotkey := wallet_by_hotkey e;
     dispatch_late := dispatch_late e;
     task_late := task_late e;
     get_balance := get_balance e;
     burned_register := burned_register e;
     watch_in_time := watch_in_time e;
     get_uid_for_hotkey_on_subnet := get_uid_for_hotkey_on_subnet e;
     is_hotkey_registered_on_subnet := is_hotkey_registered_on_subnet e;
     schedule := sched |}.

(** [cold_2_wins] with its tasks run step by step and the main thread
    going on to the drain. *)
Definition cold_2_wins_drained : env :=
  with_schedule Samples.cold_2_wins
    (Pool.expand (schedule Samples.cold_2_wins) ++ [ATick]).

(** [cold_2_wins] with the main thread at the drain while the third task
    has not started: the schedule ends with the main thread blocked. *)
Definition cold_2_wins_cut_short : env :=
  with_schedule Samples.cold_2_wins
    [ATask 0; ATask 0; ATask 0; ATask 0; ATask 1; ATask 1; ATask 1; ATask 1;
     ATick; ATick; ATick; ATick; ATick].

(** The first task passes its test, then the watch loop finds the hotkey
    of [cold_1] registered and sets the signal, then the first task goes
    on; the two others start after the signal. *)
Definition overtaken : env :=
  with_schedule Samples.uid_query_broken
    [ATask 0; ATick; ATask 0; ATask 0; ATask 0;
     ATask 1; ATask 2; ATick; ATick].

End PoolSamples.
(** * Properties *)

(** ** The window scheduler *)

Module WindowScheduler.
Import Main.

(** The closed form of lines 114-116 for a non-zero period. *)
Lemma epoch_target_eq (h p : Z) (s : state) :
  p <> 0 ->
  epoch_target h p s
  = Ret ((p - h mod p) mod p, h + (p - h mod p) mod p) s.
Proof.
  intros Hp. unfold epoch_target, py_mod, bind, ret.
  apply Z.eqb_neq in Hp. rewrite Hp. reflexivity.
Qed.

Lemma blocks_until_bounds (h p : Z) :
  0 < p -> 0 <= (p - h mod p) mod p < p.
Proof. intros Hp. apply Z.mod_pos_bound. exact Hp. Qed.

Lemma target_divisible (h p : Z) :
  0 < p -> (h + (p - h mod p) mod p) mod p = 0.
Proof.
  intros Hp.
  rewrite Z.add_mod_idemp_r by lia.
  replace (h + (p - h mod p)) with ((h / p + 1) * p).
  - apply Z.mod_mul. lia.
  - pose proof (Z.div_mod h p ltac:(lia)). lia.
Qed.

Lemma blocks_until_zero (h p : Z) :
  0 < p -> h mod p = 0 -> (p - h mod p) mod p = 0.
Proof.
  intros Hp H0. rewrite H0, Z.sub_0_r. apply Z.mod_same. lia.
Qed.

(** One poll of the height that answers [b]. *)
Lemma get_current_block_ok (e : env) (s : state) (b : Z) :
  get_current_block e (block_calls s) = Ok b ->
  _get_current_block e s
  = Ret (Some b)
        {| block_calls := S (block_calls s); tick_count := tick_count s;
           watching := watching s; submitted := submitted s;
           success := success s; success_event := success_event s;
           trace := trace s ++ [QueryBlock] |}.
Proof.
  intros Hb. unfold _get_current_block, bind, gets, modify, try_except,
    call, emit, ret. cbn. rewrite Hb. reflexivity.
Qed.

(** One poll of the height that fails. *)
Lemma get_current_block_raise (e : env) (s : state) (x : exn) :
  get_current_block e (block_calls s) = Raise x ->
  _get_current_block e s
  = Ret None
        {| block_calls := S (block_calls s); tick_count := tick_count s;
           watching := watching s; submitted := submitted s;
           success := success s; success_event := success_event s;
           trace := trace s ++ [QueryBlock] |}.
Proof.
  intros Hb. unfold _get_current_block, bind, gets, modify, try_except,
    call, emit, ret, raise. cbn. rewrite Hb. reflexivity.
Qed.

(** C1. For every height [h] and every positive period [p] the window
    computation of the scheduler yields a target [t] with [h <= t],
    [t mod p = 0] and [t - h < p]; when [h mod p = 0] the target is [h]
    and the scheduler returns at once: one height query, the metagraph
    query, no sleep and no further poll. *)
Theorem C1_next_window (h p : Z) (Hp : 0 < p) :
  exists t : Z,
    (forall s, epoch_target h p s = Ret (t - h, t) s)
    /\ h <= t /\ t mod p = 0 /\ t - h < p
    /\ (h mod p = 0 ->
        t = h
        /\ forall (fuel : nat) (e : env) (s : state),
            get_current_block e (block_calls s) = Ok h ->
            metagraph_tempo e = Ok p ->
            exists s',
              _wait_for_next_epoch_start fuel e s = Ret tt s'
              /\ trace s' = trace s ++ [QueryBlock; QueryMetagraph]).
Proof.
  exists (h + (p - h mod p) mod p).
  pose proof (blocks_until_bounds h p Hp) as Hb.
  repeat split.
  - intros s. rewrite epoch_target_eq by lia. f_equal. f_equal. lia.
  - lia.
  - apply target_divisible; exact Hp.
  - lia.
  - rewrite (blocks_until_zero h p Hp H). lia.
  - intros fuel e s Hblock Htempo.
    unfold _wait_for_next_epoch_start, bind.
    rewrite (get_current_block_ok e s h Hblock).
    unfold call, bind, emit, ret. rewrite Htempo. cbn.
    rewrite epoch_target_eq by lia. cbn.
    rewrite (blocks_until_zero h p Hp H). cbn.
    eexists. split; [reflexivity |]. cbn.
    rewrite <- app_assoc. reflexivity.
Qed.

Lemma C1_next_window_witness :
  0 < 360
  /\ exists t : Z,
      (forall s, epoch_target 725 360 s = Ret (t - 725, t) s)
      /\ 725 <= t /\ t mod 360 = 0 /\ t - 725 < 360
      /\ (725 mod 360 = 0 ->
          t = 725
          /\ forall (fuel : nat) (e : env) (s : state),
              get_current_block e (block_calls s) = Ok 725 ->
              metagraph_tempo e = Ok 360 ->
              exists s',
                _wait_for_next_epoch_start fuel e s = Ret tt s'
                /\ trace s' = trace s ++ [QueryBlock; QueryMetagraph]).
Proof. split; [lia | apply (C1_next_window 725 360); lia]. Defined.

Example epoch_target_725 :
  epoch_target 725 360 initial = Ret (355, 1080) initial.
Proof. reflexivity. Qed.

Example epoch_target_boundary :
  epoch_target 720 360 initial = Ret (0, 720) initial.
Proof. reflexivity. Qed.

Example epoch_target_zero_tempo :
  epoch_target 725 0 initial = Exc ZeroDivisionError initial.
Proof. reflexivity. Qed.

(** A poll of the height never raises and costs one query. *)
Lemma get_current_block_total (e : env) (s : state) :
  exists o s',
    _get_current_block e s = Ret o s'
    /\ trace s' = trace s ++ [QueryBlock].
Proof.
  destruct (get_current_block e (block_calls s)) as [b | x] eqn:Hb.
  - eexists; eexists; split;
      [apply (get_current_block_ok e s b Hb) | reflexivity].
  - eexists; eexists; split;
      [apply (get_current_block_raise e s x Hb) | reflexivity].
Qed.

Lemma coarse_wait_no_raise (fuel : nat) (e : env) (target : Z) (s : state) :
  ~ raises (coarse_wait fuel e target s).
Proof.
  revert s. induction fuel as [| fuel IH]; intros s; cbn; [tauto |].
  unfold bind at 1.
  destruct (get_current_block_total e s) as (o & s' & Hq & _). rewrite Hq.
  destruct o as [nb |]; [| cbn; tauto].
  destruct (nb >=? target - 1); [cbn; tauto |].
  unfold bind, emit. apply IH.
Qed.

Lemma fine_wait_no_raise (fuel : nat) (e : env) (target : Z) (s : state) :
  ~ raises (fine_wait fuel e target s).
Proof.
  revert s. induction fuel as [| fuel IH]; intros s; cbn; [tauto |].
  unfold bind at 1.
  destruct (get_current_block_total e s) as (o & s' & Hq & _). rewrite Hq.
  destruct o as [nb |]; [| cbn; tauto].
  destruct (nb >=? target); [cbn; tauto |].
  unfold bind, emit. apply IH.
Qed.

(** With the metagraph query answered and a non-zero tempo, the scheduler
    does not raise, whatever the height queries do. *)
Lemma scheduler_no_raise_with_tempo (fuel : nat) (e : env) (s : state)
  (p : Z) :
  metagraph_tempo e = Ok p -> p <> 0 ->
  ~ raises (_wait_for_next_epoch_start fuel e s).
Proof.
  intros Htempo Hp. unfold _wait_for_next_epoch_start, bind at 1.
  destruct (get_current_block_total e s) as (o & s' & Hq & _). rewrite Hq.
  unfold call, bind at 1, bind at 1, emit. rewrite Htempo. unfold ret at 1.
  destruct o as [h |]; [| cbn; tauto].
  unfold bind at 1. rewrite epoch_target_eq by exact Hp. cbn [fst snd].
  destruct (_ =? 0); [cbn; tauto |].
  unfold bind.
  match goal with
  | |- ~ raises (match coarse_wait ?f ?e ?t ?s0 with _ => _ end) =>
      pose proof (coarse_wait_no_raise f e t s0) as Hc;
      destruct (coarse_wait f e t s0)
  end; cbn in Hc |- *; try tauto.
  apply fine_wait_no_raise.
Qed.

(** With the metagraph query answered, an unreadable height makes the
    scheduler return at once, without a sleep. *)
Lemma scheduler_skips_without_height (fuel : nat) (e : env) (s : state)
  (p : Z) (x : exn) :
  metagraph_tempo e = Ok p ->
  get_current_block e (block_calls s) = Raise x ->
  exists s',
    _wait_for_next_epoch_start fuel e s = Ret tt s'
    /\ trace s' = trace s ++ [QueryBlock; QueryMetagraph].
Proof.
  intros Htempo Hb. unfold _wait_for_next_epoch_start, bind.
  rewrite (get_current_block_raise e s x Hb).
  unfold call, bind, emit, ret. rewrite Htempo. cbn.
  eexists. split; [reflexivity |]. cbn.
  rewrite <- app_assoc. reflexivity.
Qed.

(** C3, at the failing input: when the node is unreachable the height
    query is swallowed, but the metagraph query that follows it is not
    guarded and its exception leaves the scheduler, for every fuel. *)
Theorem C3_scheduler_raises_when_node_down (fuel : nat) :
  exists s',
    _wait_for_next_epoch_start fuel Samples.node_down initial
    = Exc Samples.unreachable s'
    /\ trace s' = [QueryBlock; QueryMetagraph].
Proof. eexists. split; reflexivity. Qed.

(** The same scheduler raises [ZeroDivisionError] on a zero tempo. *)
Lemma scheduler_raises_on_zero_tempo (fuel : nat) (e : env) (s : state)
  (h : Z) :
  get_current_block e (block_calls s) = Ok h ->
  metagraph_tempo e = Ok 0 ->
  exists s', _wait_for_next_epoch_start fuel e s = Exc ZeroDivisionError s'.
Proof.
  intros Hb Htempo. unfold _wait_for_next_epoch_start, bind.
  rewrite (get_current_block_ok e s h Hb).
  unfold call, bind, emit, ret. rewrite Htempo. cbn.
  eexists. reflexivity.
Qed.

End WindowScheduler.

(** ** The balance gate *)

Module BalanceGateSpec.
Import Main.

Section AnyValue.
Context {V : Type} `{PyValue V}.


Lemma to_float_unconvertible (x : V) :
  unconvertible x -> to_float x = PyFloat.zero.
Proof.
  intros [Htao Htok]. unfold to_float. rewrite Htok.
  destruct Htao as [Hno | Hbad].
  - rewrite Hno. reflexivity.
  - rewrite Hbad. destruct (has_tao x); reflexivity.
Qed.

Lemma zero_not_below_zero : PyFloat.lt PyFloat.zero PyFloat.zero = false.
Proof. reflexivity. Qed.

(** C9. When [a < b] raises and neither conversion of [to_float] yields a
    number for [a] or for [b], both become [0.0], the comparison returns
    false and the gate lets the attempt proceed. *)
Theorem C9_uninterpretable_values_pass (a b : V) :
  py_lt a b = None -> unconvertible a -> unconvertible b ->
  to_float a = PyFloat.zero
  /\ to_float b = PyFloat.zero
  /\ _compare_balances a b = false
  /\ balance_gate a b = true.
Proof.
  intros Hlt Ha Hb.
  pose proof (to_float_unconvertible a Ha) as Hfa.
  pose proof (to_float_unconvertible b Hb) as Hfb.
  assert (Hcmp : _compare_balances a b = false).
  { unfold _compare_balances. rewrite Hlt, Hfa, Hfb.
    apply zero_not_below_zero. }
  repeat split; try assumption.
  unfold balance_gate. rewrite Hcmp. destruct (is_none a); reflexivity.
Qed.


End AnyValue.

Lemma C9_uninterpretable_values_pass_witness :
  py_lt (PyObject None None) PyNone = None
  /\ unconvertible (PyObject None None)
  /\ unconvertible PyNone
  /\ to_float (PyObject None None) = PyFloat.zero
  /\ to_float PyNone = PyFloat.zero
  /\ _compare_balances (PyObject None None) PyNone = false
  /\ balance_gate (PyObject None None) PyNone = true.
Proof.
  assert (Hlt : py_lt (PyObject None None) PyNone = None) by reflexivity.
  assert (Ha : unconvertible (PyObject None None))
    by (split; [left |]; reflexivity).
  assert (Hb : unconvertible PyNone) by (split; [left |]; reflexivity).
  split; [exact Hlt |]. split; [exact Ha |]. split; [exact Hb |].
  apply (C9_uninterpretable_values_pass _ _ Hlt Ha Hb).
Defined.








(** The fallback at work on a cost held as the float 1.0. *)
Example gate_degraded_poor :
  balance_gate (PyBalance 500000000) (Samples.py_float Samples.one) = false.
Proof. vm_compute. reflexivity. Qed.

Example gate_degraded_exact :
  balance_gate (PyBalance 1000000000) (Samples.py_float Samples.one) = true.
Proof. vm_compute. reflexivity. Qed.

Example gate_degraded_rich :
  balance_gate (PyBalance 5000000000) (Samples.py_float Samples.one) = true.
Proof. vm_compute. reflexivity. Qed.

(** Both sides held as floats without an ordering of their own. *)
Example gate_degraded_both :
  balance_gate (PyObject (Some (Some Samples.half)) None)
    (PyObject (Some (Some Samples.one)) None) = false.
Proof. vm_compute. reflexivity. Qed.

Example gate_rich : balance_gate (PyBalance 5000000000) (PyBalance 1000000000) = true.
Proof. reflexivity. Qed.

Example gate_exact : balance_gate (PyBalance 1000000000) (PyBalance 1000000000) = true.
Proof. reflexivity. Qed.

Example gate_poor : balance_gate (PyBalance 999999999) (PyBalance 1000000000) = false.
Proof. reflexivity. Qed.

Example to_float_balance :
  to_float (PyBalance 1500000000) = S754_finite false 6755399441055744 (-52).
Proof. vm_compute. reflexivity. Qed.

(** A balance against a cost of [None]: the typed comparison raises and
    the floats decide, [5.0 < 0.0] being false. *)
Example gate_cost_none : balance_gate (PyBalance 5000000000) PyNone = true.
Proof. vm_compute. reflexivity. Qed.

End BalanceGateSpec.

(** ** The wall-clock window of monkey.py *)

Module WallClock.
Import Monkey.

Lemma cycle_value : cycle = 4320000000.
Proof. reflexivity. Qed.

(** The loop adds whole cycles, stops strictly after [now_dt], and its
    last addition, if any, started from a value not after [now_dt]. *)
Lemma advance_spec (target_dt now_dt : Z) :
  exists k : Z,
    0 <= k
    /\ advance target_dt now_dt = target_dt + k * cycle
    /\ now_dt < advance target_dt now_dt
    /\ (0 < k -> advance target_dt now_dt - cycle <= now_dt).
Proof.
  funelim (advance target_dt now_dt).
  - destruct H as (k & Hk & Hadv & Hlt & Hmin).
    change (timedelta_seconds cycle_seconds) with cycle in *.
    exists (k + 1). split; [lia |]. split; [lia |]. split; [lia |].
    intros _. destruct (Z.eq_dec k 0) as [-> | Hne]; lia.
  - exists 0. repeat split; lia.
Qed.

(** C7. The target of the wall-clock window is the anchor plus a whole
    number [k >= 0] of cycles, lies strictly after the current time, and
    is the smallest value of that form that does. *)
Theorem C7_next_target (last_dt now_dt : Z) :
  exists k : Z,
    0 <= k
    /\ next_target last_dt now_dt = last_dt + k * cycle
    /\ now_dt < next_target last_dt now_dt
    /\ forall k' : Z,
        0 <= k' -> now_dt < last_dt + k' * cycle ->
        next_target last_dt now_dt <= last_dt + k' * cycle.
Proof.
  unfold next_target.
  destruct (advance_spec last_dt now_dt) as (k & Hk & Heq & Hlt & Hmin).
  exists k. repeat split; try assumption.
  intros k' Hk' Hlt'. rewrite Heq.
  pose proof cycle_value as Hc.
  destruct (Z.eq_dec k 0) as [-> | Hne]; [nia |].
  assert (Hprev : last_dt + (k - 1) * cycle <= now_dt) by lia.
  assert (k - 1 < k') by nia.
  nia.
Qed.

(** 2025-09-09 03:01:36 UTC is 1757386896 s after the epoch; ten seconds
    past the second cycle the next window is the third one. *)
Example next_target_sample :
  next_target (timedelta_seconds 1757386896)
              (timedelta_seconds (1757386896 + 2 * 4320 + 10))
  = timedelta_seconds (1757386896 + 3 * 4320).
Proof. reflexivity. Qed.

(** An anchor in the future is kept. *)
Example next_target_future_anchor :
  next_target (timedelta_seconds 2000) (timedelta_seconds 1000)
  = timedelta_seconds 2000.
Proof. reflexivity. Qed.

(** An anchor equal to the current time is advanced by one cycle. *)
Example next_target_equal :
  next_target 0 0 = cycle.
Proof. reflexivity. Qed.

End WallClock.

(** ** Relations kept by every computation of the monad *)

Module Preservation.
Import Main.

Section Preorder.
Variable R : state -> state -> Prop.
Hypothesis R_refl : forall s, R s s.
Hypothesis R_trans : forall s1 s2 s3, R s1 s2 -> R s2 s3 -> R s1 s3.

Lemma pres_ret {A} (a : A) : preserves R (ret a).
Proof. intros s. apply R_refl. Qed.

Lemma pres_raise {A} (x : exn) : preserves R (@raise A x).
Proof. intros s. apply R_refl. Qed.

Lemma pres_gets {A} (f : state -> A) : preserves R (gets f).
Proof. intros s. apply R_refl. Qed.

Lemma pres_modify (f : state -> state) :
  (forall s, R s (f s)) -> preserves R (modify f).
Proof. intros Hf s. apply Hf. Qed.

Lemma pres_emit (ev : event) :
  (forall s, R s (add_event ev s)) -> preserves R (emit ev).
Proof. intros Hf s. apply Hf. Qed.

Lemma pres_bind {A B} (m : M A) (k : A -> M B) :
  preserves R m -> (forall a, preserves R (k a)) -> preserves R (bind m k).
Proof.
  intros Hm Hk s. unfold bind. specialize (Hm s).
  destruct (m s) as [a s1 | x s1 | s1]; cbn in *; try exact Hm.
  eapply R_trans; [exact Hm | apply Hk].
Qed.

Lemma pres_try_except {A} (m : M A) (h : exn -> M A) :
  preserves R m -> (forall x, preserves R (h x)) ->
  preserves R (try_except m h).
Proof.
  intros Hm Hh s. unfold try_except. specialize (Hm s).
  destruct (m s) as [a s1 | x s1 | s1]; cbn in *; try exact Hm.
  eapply R_trans; [exact Hm | apply Hh].
Qed.

Lemma pres_call {A} (ev : event) (r : result A) :
  (forall s, R s (add_event ev s)) -> preserves R (call ev r).
Proof.
  intros Hev. unfold call. apply pres_bind; [apply pres_emit, Hev |].
  intros _. destruct r; [apply pres_ret | apply pres_raise].
Qed.

End Preorder.

(** Closing a goal [preserves R m] along the structure of [m]; [prim]
    settles what remains, the side conditions on the state updates and
    the calls of other functions. *)
Ltac pres_with refl trans prim :=
  repeat
    match goal with
    | |- forall _, _ => intro
    | |- preserves _ (ret _) => apply pres_ret; exact refl
    | |- preserves _ (raise _) => apply pres_raise; exact refl
    | |- preserves _ (gets _) => apply pres_gets; exact refl
    | |- preserves _ (bind _ _) => apply pres_bind; [exact trans | | ]
    | |- preserves _ (try_except _ _) =>
        apply pres_try_except; [exact trans | | ]
    | |- preserves _ (call _ _) =>
        apply pres_call; [exact refl | exact trans | ]
    | |- preserves _ (modify _) => apply pres_modify
    | |- preserves _ (emit _) => apply pres_emit
    | |- preserves _ (match ?x with _ => _ end) => destruct x
    | |- _ => solve [prim]
    end.

End Preservation.

(** ** The success signal *)

Module SuccessSignal.
Import Main Later Preservation.

Lemma keeps_signal_refl (s : state) : keeps_signal s s.
Proof. intros H. split; [reflexivity | exact H]. Qed.

Lemma keeps_signal_trans (s1 s2 s3 : state) :
  keeps_signal s1 s2 -> keeps_signal s2 s3 -> keeps_signal s1 s3.
Proof.
  intros H12 H23 H. destruct (H12 H) as [Hs Hev].
  destruct (H23 Hev) as [Hs' Hev']. split; congruence.
Qed.

Lemma keeps_signal_set_success (p : string * Z) (s : state) :
  keeps_signal s (set_success p s).
Proof.
  intros H. unfold set_success. rewrite H. split; [reflexivity | exact H].
Qed.

Ltac signal_prim :=
  first [ apply keeps_signal_set_success
        | intros ?; cbn; split; [reflexivity | assumption] ].

Ltac signal := pres_with keeps_signal_refl keeps_signal_trans signal_prim.

Lemma submit_one_keeps_signal e burn_cost w :
  preserves keeps_signal (submit_one e burn_cost w).
Proof.
  unfold submit_one, _get_wallet_balance, _try_register. signal.
Qed.

Lemma scan_wallets_keeps_signal e ws :
  preserves keeps_signal (scan_wallets e ws).
Proof.
  induction ws as [| w rest IH]; cbn [scan_wallets];
    unfold _get_uid_for_hotkey; signal; exact IH.
Qed.

Lemma watch_step_keeps_signal e ws :
  preserves keeps_signal (watch_step e ws).
Proof.
  unfold watch_step. signal. apply scan_wallets_keeps_signal.
Qed.

Lemma race_keeps_signal e burn_cost wallets futures sched :
  preserves keeps_signal (race e burn_cost wallets futures sched).
Proof.
  induction sched as [| a rest IH]; cbn [race]; unfold step; signal;
    first [ exact IH | apply submit_one_keeps_signal
          | apply watch_step_keeps_signal ].
Qed.

Lemma set_all_when_set (ps : list (string * Z)) (s : state) :
  success_event s = true -> set_all ps s = s.
Proof.
  revert s. induction ps as [| q ps IH]; intros s Hset; [reflexivity |].
  unfold set_all in *. cbn. unfold set_success at 2. rewrite Hset.
  apply IH, Hset.
Qed.

(** C5. In a cycle whose signal is unset, the first setter to enter the
    critical section stores its payload and sets the event; whatever
    setters follow, in whatever order, and whatever the rest of the race
    does, the payload and the event stay as the first setter left them. *)
Theorem C5_signal_set_once (s : state) (p : string * Z)
  (Hunset : success_event s = false) :
  success (set_success p s) = Some p
  /\ success_event (set_success p s) = true
  /\ (forall later : list (string * Z),
        set_all (p :: later) s = set_success p s)
  /\ (forall e burn_cost wallets futures sched,
        let s' :=
          final_state
            (race e burn_cost wallets futures sched (set_success p s)) in
        success s' = Some p /\ success_event s' = true).
Proof.
  assert (Hp : success (set_success p s) = Some p)
    by (unfold set_success; rewrite Hunset; reflexivity).
  assert (Hev : success_event (set_success p s) = true)
    by (unfold set_success; rewrite Hunset; reflexivity).
  repeat split; try assumption.
  - intros later. unfold set_all. cbn. apply set_all_when_set, Hev.
  - rewrite <- Hp.
    apply (race_keeps_signal e burn_cost wallets futures sched _ Hev).
  - apply (race_keeps_signal e burn_cost wallets futures sched _ Hev).
Qed.

Lemma C5_signal_set_once_witness :
  success_event initial = false
  /\ success (set_success ("cold_2"%string, 7) initial)
     = Some ("cold_2"%string, 7)
  /\ (forall later : list (string * Z),
        set_all (("cold_2"%string, 7) :: later) initial
        = set_success ("cold_2"%string, 7) initial).
Proof.
  split; [reflexivity |].
  destruct (C5_signal_set_once initial ("cold_2"%string, 7) eq_refl)
    as (Hp & _ & Hlater & _).
  split; [exact Hp | exact Hlater].
Defined.

Example two_setters :
  success (set_all [("cold_2"%string, 7); ("cold_3"%string, 9)] initial)
  = Some ("cold_2"%string, 7).
Proof. reflexivity. Qed.

(** ** The membership lookup and its fallback *)

(** C10. When the direct uid query raises and the fallback check answers
    true, the lookup returns 1, not an index read from the chain; the
    watch loop takes it for a success and the reported winner carries
    index 1. A direct answer of uid 0 for the same hotkey is not taken
    for a success. *)
Theorem C10_fallback_sentinel (e : env) (w : wallet) (rest : list wallet)
  (hot : string) (x : exn) (s : state) :
  hotkey w = Ok hot ->
  success_event s = false ->
  get_uid_for_hotkey_on_subnet e (tick_count s) hot = Raise x ->
  is_hotkey_registered_on_subnet e (tick_count s) hot = Ok true ->
  (exists s1,
      _get_uid_for_hotkey e (tick_count s) hot s = Ret (Some 1) s1
      /\ trace s1 = trace s ++ [QueryUid hot; QueryRegistered hot])
  /\ (exists s2,
        scan_wallets e (w :: rest) s = Ret tt s2
        /\ success s2 = Some (name w, 1)
        /\ success_event s2 = true
        /\ final_report s2 = Registered (name w, 1))
  /\ (forall e0,
        get_uid_for_hotkey_on_subnet e0 (tick_count s) hot = Ok (Some 0) ->
        exists s3,
          scan_wallets e0 [w] s = Ret tt s3
          /\ success_event s3 = false
          /\ final_report s3 = NoRegistration (submitted s)).
Proof.
  intros Hhot Hunset Hdirect Hfallback.
  assert (Hlookup :
    _get_uid_for_hotkey e (tick_count s) hot s
    = Ret (Some 1)
          (add_event (QueryRegistered hot) (add_event (QueryUid hot) s))).
  { unfold _get_uid_for_hotkey, try_except, call, bind, emit, ret, raise.
    rewrite Hdirect, Hfallback. reflexivity. }
  split; [| split].
  - eexists. split; [exact Hlookup |]. cbn.
    rewrite <- app_assoc. reflexivity.
  - cbn [scan_wallets]. rewrite Hhot. unfold bind at 1, gets at 1.
    unfold bind at 1. rewrite Hlookup. cbn [Z.eqb].
    unfold modify. eexists. split; [reflexivity |].
    unfold final_report, set_success. cbn. rewrite Hunset. cbn.
    repeat split.
  - intros e0 Hzero. cbn [scan_wallets]. rewrite Hhot.
    unfold bind, gets, _get_uid_for_hotkey, try_except, call, bind, emit,
      ret. rewrite Hzero. cbn.
    eexists. split; [reflexivity |]. unfold final_report. cbn.
    rewrite Hunset. split; reflexivity.
Qed.

Lemma C10_fallback_sentinel_witness :
  exists s2,
    scan_wallets Samples.uid_query_broken
      [Samples.stored "cold_1"; Samples.stored "cold_2"] initial
    = Ret tt s2
    /\ success s2 = Some ("cold_1"%string, 1)
    /\ success_event s2 = true
    /\ final_report s2 = Registered ("cold_1"%string, 1).
Proof.
  apply (C10_fallback_sentinel Samples.uid_query_broken
           (Samples.stored "cold_1") [Samples.stored "cold_2"]
           "5H_cold_1" (SdkError "method not found") initial);
    reflexivity.
Defined.

(** The whole run on [uid_query_broken]: the report names [cold_1] with
    index 1. *)
Example main_reports_sentinel :
  exists s,
    main 0 Samples.uid_query_broken initial
    = Ret (Registered ("cold_1"%string, 1)) s.
Proof. eexists. vm_compute. reflexivity. Qed.

(** The whole run on [uid_zero]: a direct answer of uid 0 is no success. *)
Example main_ignores_uid_zero :
  exists s log,
    main 0 Samples.uid_zero initial = Ret (NoRegistration log) s.
Proof. eexists. eexists. vm_compute. reflexivity. Qed.

End SuccessSignal.

(** ** The barrier at the end of a cycle *)

Module Barrier.
Import Futures Monkey.

Lemma as_completed_looks (fuel : nat) (st : status) (n m : nat)
  (futures : list nat) :
  as_completed fuel st n futures = Some m -> (n <= m)%nat.
Proof.
  revert n futures. induction fuel as [| fuel IH]; intros n futures Hret.
  - destruct futures; cbn in Hret; [injection Hret as <-; lia | discriminate].
  - destruct futures as [| i rest]; cbn [as_completed] in Hret.
    + injection Hret as <-. lia.
    + apply IH in Hret. lia.
Qed.

(** The drain of main.py ends only after every future has finished. *)
Lemma as_completed_all_finished (fuel : nat) (st : status) (n m : nat)
  (futures : list nat) :
  as_completed fuel st n futures = Some m ->
  forall i, In i futures ->
  exists k, (n <= k < m)%nat /\ finished st k i = true.
Proof.
  revert n futures. induction fuel as [| fuel IH]; intros n futures Hret i Hin.
  - destruct futures; [contradiction | discriminate].
  - destruct futures as [| j rest]; [contradiction |].
    cbn [as_completed] in Hret.
    destruct (finished st n i) eqn:Hfin.
    + exists n. split; [| exact Hfin].
      apply as_completed_looks in Hret. lia.
    + destruct (IH _ _ Hret i) as (k & Hk & Hdone).
      * apply filter_In. split; [exact Hin |]. rewrite Hfin. reflexivity.
      * exists k. split; [lia | exact Hdone].
Qed.

Lemma filter_none {A} (f : A -> bool) (l : list A) :
  (forall x, In x l -> f x = false) -> filter f l = [].
Proof.
  induction l as [| x l IH]; intros Hall; [reflexivity |].
  cbn. rewrite (Hall x (or_introl eq_refl)). apply IH.
  intros y Hy. apply Hall. right. exact Hy.
Qed.

(** The drain does end once every future has finished. *)
Lemma as_completed_returns (fuel : nat) (st : status) (n : nat)
  (futures : list nat) :
  (forall i, In i futures -> finished st n i = true) ->
  exists m, as_completed (S fuel) st n futures = Some m.
Proof.
  intros Hall. destruct futures as [| j rest]; [exists n; reflexivity |].
  cbn [as_completed].
  replace (filter _ (j :: rest)) with (@nil nat).
  - exists (S n). destruct fuel; reflexivity.
  - symmetry. apply filter_none.
    intros i Hin. rewrite (Hall i Hin). reflexivity.
Qed.




Example drain_all_fail :
  as_completed 5 Samples.all_fail 0 [0; 1; 2]%nat = Some 3%nat.
Proof. reflexivity. Qed.

(** The drain of main.py does not return while a future runs. *)
Example drain_first_wins (fuel : nat) :
  as_completed fuel Samples.first_wins 0 [0; 1]%nat = None.
Proof.
  assert (H : forall f n, as_completed f Samples.first_wins n [1%nat] = None).
  { induction f as [| f IH]; intros n; [reflexivity | apply IH]. }
  destruct fuel as [| fuel]; [reflexivity |]. cbn. apply H.
Qed.

End Barrier.

(** ** The submission tasks and their records *)

Module Coordinator.
Import Main Later Preservation.

(** The balance fetch always returns, and touches neither the log nor
    the signal; it makes no submission. *)
Lemma get_wallet_balance_total (e : env) (w : wallet) (s : state) :
  exists bal s1,
    _get_wallet_balance e w s = Ret bal s1
    /\ submitted s1 = submitted s
    /\ success_event s1 = success_event s
    /\ forall n, submissions_of n (trace s1) = submissions_of n (trace s).
Proof.
  unfold _get_wallet_balance.
  destruct (coldkeypub w) as [address | x].
  - unfold try_except, call, bind, emit, ret, raise.
    destruct (get_balance e address) as [v | x];
      eexists; eexists; (split; [reflexivity |]); cbn;
      repeat split; intros n; unfold submissions_of;
      rewrite filter_app; cbn; apply app_nil_r.
  - exists PyNone, s. repeat split.
Qed.

(** The submission always returns a pair, after one remote call. *)
Lemma try_register_total (e : env) (w : wallet) (s : state) :
  exists ok info,
    _try_register e w s
    = Ret (ok, info) (add_event (SubmitRegister (name w)) s).
Proof.
  unfold _try_register, try_except, call, bind, emit, ret, raise.
  destruct (burned_register e (name w)) as [res0 | x];
    eexists; eexists; reflexivity.
Qed.

(** A task that finds the signal set or the deadline passed returns
    without a trace. *)
Lemma submit_one_stopped (e : env) (burn_cost : pyval) (w : wallet)
  (s : state) :
  success_event s = true \/ task_late e (name w) = true ->
  submit_one e burn_cost w s = Ret None s.
Proof.
  intros Hstop. unfold submit_one, bind, gets.
  replace (success_event s || task_late e (name w)) with true;
    [reflexivity |].
  symmetry. apply orb_true_iff. exact Hstop.
Qed.

(** A task that goes on: the gate decides between returning without a
    record and one submission followed by one record. *)
Lemma submit_one_running (e : env) (burn_cost : pyval) (w : wallet)
  (s : state) :
  success_event s = false -> task_late e (name w) = false ->
  exists bal s1,
    _get_wallet_balance e w s = Ret bal s1
    /\ submitted s1 = submitted s
    /\ (forall n, submissions_of n (trace s1) = submissions_of n (trace s))
    /\ (balance_gate bal burn_cost = false ->
        submit_one e burn_cost w s = Ret None s1)
    /\ (balance_gate bal burn_cost = true ->
        exists ok info,
          submit_one e burn_cost w s
          = Ret (Some info)
                (append_submitted (name w, ok, info)
                   (add_event (SubmitRegister (name w)) s1))).
Proof.
  intros Hunset Hearly.
  destruct (get_wallet_balance_total e w s) as (bal & s1 & Hbal & Hlog & _ & Hsub).
  exists bal, s1. repeat split; try assumption.
  - intros Hgate. unfold submit_one, bind at 1, gets.
    rewrite Hunset, Hearly. cbn [orb].
    unfold bind, try_except. rewrite Hbal, Hgate. reflexivity.
  - intros Hgate.
    destruct (try_register_total e w s1) as (ok & info & Hreg).
    exists ok, info. unfold submit_one, bind at 1, gets.
    rewrite Hunset, Hearly. cbn [orb].
    unfold bind at 1, try_except at 1. rewrite Hbal, Hgate.
    unfold bind, modify, ret. rewrite Hreg. reflexivity.
Qed.

(** *** One record per submission *)

Lemma rps_refl (s : state) : record_per_submission s s.
Proof. intros n. lia. Qed.

Lemma rps_trans (s1 s2 s3 : state) :
  record_per_submission s1 s2 -> record_per_submission s2 s3 ->
  record_per_submission s1 s3.
Proof. intros H12 H23 n. specialize (H12 n). specialize (H23 n). lia. Qed.

(** A step that leaves the log and the submissions of the trace as they
    were. *)
Lemma rps_same (s s' : state) :
  submitted s' = submitted s ->
  (forall n, submissions_of n (trace s') = submissions_of n (trace s)) ->
  record_per_submission s s'.
Proof. intros Hlog Hsub n. rewrite Hlog, Hsub. lia. Qed.

Lemma rps_add_event (ev : event) (s : state) :
  (forall n, submissions_of n [ev] = []) ->
  record_per_submission s (add_event ev s).
Proof.
  intros Hev. apply rps_same; [reflexivity |].
  intros n. cbn. unfold submissions_of in *. rewrite filter_app.
  rewrite (Hev n). apply app_nil_r.
Qed.

Lemma rps_set_success (p : string * Z) (s : state) :
  record_per_submission s (set_success p s).
Proof.
  unfold set_success. destruct (success_event s);
    [apply rps_refl | apply rps_same; reflexivity].
Qed.

(** One submission and its record, together. *)
Lemma rps_submission (w : wallet) (ok : bool) (info : string) (s : state) :
  record_per_submission s
    (append_submitted (name w, ok, info)
       (add_event (SubmitRegister (name w)) s)).
Proof.
  intros n. cbn. unfold records_of, submissions_of.
  rewrite !filter_app, !length_app. cbn.
  destruct (String.eqb (name w) n); cbn;
    rewrite <- Nat.add_assoc; f_equal; apply Nat.add_comm.
Qed.

Ltac rps_prim :=
  first [ apply rps_set_success
        | apply rps_add_event; intros ?; reflexivity
        | apply rps_same; reflexivity ].

Ltac rps := pres_with rps_refl rps_trans rps_prim.

Lemma submit_one_rps e burn_cost w :
  preserves record_per_submission (submit_one e burn_cost w).
Proof.
  intros s.
  destruct (success_event s) eqn:Hset;
    [rewrite submit_one_stopped by (left; exact Hset); apply rps_refl |].
  destruct (task_late e (name w)) eqn:Hlate;
    [rewrite submit_one_stopped by (right; exact Hlate); apply rps_refl |].
  destruct (submit_one_running e burn_cost w s Hset Hlate)
    as (bal & s1 & _ & Hlog & Hsub & Hskip & Hgo).
  destruct (balance_gate bal burn_cost).
  - destruct (Hgo eq_refl) as (ok & info & ->). cbn [final_state].
    eapply rps_trans; [apply (rps_same s s1 Hlog Hsub) |].
    apply rps_submission.
  - rewrite (Hskip eq_refl). apply (rps_same s s1 Hlog Hsub).
Qed.

Lemma scan_wallets_rps e ws :
  preserves record_per_submission (scan_wallets e ws).
Proof.
  induction ws as [| w rest IH]; cbn [scan_wallets];
    unfold _get_uid_for_hotkey; rps; exact IH.
Qed.

Lemma watch_step_rps e ws :
  preserves record_per_submission (watch_step e ws).
Proof. unfold watch_step. rps. apply scan_wallets_rps. Qed.

Lemma race_rps e burn_cost wallets futures sched :
  preserves record_per_submission (race e burn_cost wallets futures sched).
Proof.
  induction sched as [| a rest IH]; cbn [race]; unfold step; rps;
    first [ exact IH | apply submit_one_rps | apply watch_step_rps ].
Qed.

(** *** At most one record per identity *)

Lemma final_bind {A B} (m : M A) (k : A -> M B) (s : state) :
  final_state (bind m k s)
  = match m s with
    | Ret a s1 => final_state (k a s1)
    | Exc _ s1 => s1
    | OutOfFuel s1 => s1
    end.
Proof. unfold bind. destruct (m s); reflexivity. Qed.

Lemma same_log_refl (s : state) : same_log s s.
Proof. reflexivity. Qed.

Lemma same_log_trans (s1 s2 s3 : state) :
  same_log s1 s2 -> same_log s2 s3 -> same_log s1 s3.
Proof. unfold same_log. congruence. Qed.

Lemma same_log_set_success (p : string * Z) (s : state) :
  same_log s (set_success p s).
Proof. unfold set_success. destruct (success_event s); reflexivity. Qed.

Ltac log_prim := first [ apply same_log_set_success | reflexivity ].

Ltac keep_log := pres_with same_log_refl same_log_trans log_prim.

Lemma scan_wallets_same_log e ws : preserves same_log (scan_wallets e ws).
Proof.
  induction ws as [| w rest IH]; cbn [scan_wallets];
    unfold _get_uid_for_hotkey; keep_log; exact IH.
Qed.

Lemma watch_step_same_log e ws : preserves same_log (watch_step e ws).
Proof. unfold watch_step. keep_log. apply scan_wallets_same_log. Qed.

(** A task adds at most one record, under the name of its wallet. *)
Lemma submit_one_bound e burn_cost w (s : state) (n : string) :
  (List.length (records_of n (submitted (final_state (submit_one e burn_cost w s))))
   <= List.length (records_of n (submitted s)) + List.length (named n [w]))%nat.
Proof.
  destruct (success_event s) eqn:Hset;
    [rewrite submit_one_stopped by (left; exact Hset); cbn [final_state]; lia |].
  destruct (task_late e (name w)) eqn:Hlate;
    [rewrite submit_one_stopped by (right; exact Hlate); cbn [final_state]; lia |].
  destruct (submit_one_running e burn_cost w s Hset Hlate)
    as (bal & s1 & _ & Hlog & _ & Hskip & Hgo).
  destruct (balance_gate bal burn_cost).
  - destruct (Hgo eq_refl) as (ok & info & ->).
    cbn [final_state append_submitted add_event submitted].
    rewrite Hlog. unfold records_of, named.
    rewrite filter_app, length_app. cbn [filter fst].
    destruct (String.eqb (name w) n); cbn [List.length];
      apply Nat.le_refl.
  - rewrite (Hskip eq_refl). cbn [final_state]. rewrite Hlog. lia.
Qed.

Lemma step_bound e burn_cost wallets futures a (s : state) (n : string) :
  (List.length
     (records_of n
        (submitted (final_state (step e burn_cost wallets futures a s))))
   <= List.length (records_of n (submitted s))
      + List.length (named n (task_of futures a)))%nat.
Proof.
  destruct a as [i |]; cbn [step task_of].
  - destruct (nth_error futures i) as [w |]; [| cbn; lia].
    rewrite final_bind.
    pose proof (submit_one_bound e burn_cost w s n) as Hb.
    destruct (submit_one e burn_cost w s); exact Hb.
  - rewrite (watch_step_same_log e wallets s). cbn. lia.
Qed.

Lemma race_bound e burn_cost wallets futures sched (s : state) (n : string) :
  (List.length
     (records_of n
        (submitted (final_state (race e burn_cost wallets futures sched s))))
   <= List.length (records_of n (submitted s))
      + List.length (named n (tasks_run futures sched)))%nat.
Proof.
  revert s. induction sched as [| a rest IH]; intros s.
  - cbn. lia.
  - cbn [race]. rewrite final_bind.
    pose proof (step_bound e burn_cost wallets futures a s n) as Hstep.
    unfold tasks_run in *. cbn [flat_map]. unfold named in *.
    rewrite filter_app, length_app.
    destruct (step e burn_cost wallets futures a s) as [u s1 | x s1 | s1];
      cbn [final_state] in *; [specialize (IH s1) |..]; lia.
Qed.

Lemma named_permutation (n : string) (l1 l2 : list wallet) :
  Permutation l1 l2 ->
  List.length (named n l1) = List.length (named n l2).
Proof.
  intros Hp. unfold named.
  induction Hp as [| w l1 l2 _ IH | w1 w2 l | l1 l2 l3 _ IH1 _ IH2];
    cbn [filter]; try reflexivity.
  - destruct (String.eqb (name w) n); cbn [List.length]; congruence.
  - destruct (String.eqb (name w1) n), (String.eqb (name w2) n); reflexivity.
  - congruence.
Qed.

Lemma named_dispatch (e : env) (n : string) (i : nat) (ws : list wallet) :
  (List.length (named n (dispatch e i ws)) <= List.length (named n ws))%nat.
Proof.
  unfold named. revert i.
  induction ws as [| w rest IH]; intros i; cbn [dispatch filter];
    [apply Nat.le_refl |].
  destruct (dispatch_late e i); cbn [filter List.length].
  - apply Nat.le_0_l.
  - specialize (IH (S i)).
    destruct (String.eqb (name w) n); cbn [List.length]; lia.
Qed.

Lemma named_absent (n : string) (ws : list wallet) :
  ~ In n (map name ws) -> named n ws = [].
Proof.
  unfold named.
  induction ws as [| w rest IH]; intros Hout; [reflexivity |].
  cbn [filter map In] in *.
  destruct (String.eqb_spec (name w) n) as [Heq | Hne].
  - exfalso. apply Hout. left. exact Heq.
  - apply IH. intros Hin. apply Hout. right. exact Hin.
Qed.

Lemma named_nodup (n : string) (ws : list wallet) :
  NoDup (map name ws) -> (List.length (named n ws) <= 1)%nat.
Proof.
  induction ws as [| w rest IH]; intros Hnd; [cbn; lia |].
  cbn [map] in Hnd. inversion Hnd as [| x l Hout Hrest]; subst.
  unfold named. cbn [filter]. fold (named n rest).
  destruct (String.eqb_spec (name w) n) as [Heq | Hne].
  - subst n. rewrite (named_absent _ _ Hout). cbn. lia.
  - apply IH, Hrest.
Qed.

(** C4, as the code has it. In a cycle in which every dispatched future
    runs once, every identity gets at most one record, and as many
    records as submissions were made for it. A task that finds the signal
    set or the deadline passed returns without submitting and without a
    record, and so does a task rejected by the balance gate: the log has
    no entry for a skipped identity. *)
Theorem C4_records (e : env) (burn_cost : pyval) (wallets : list wallet)
  (sched : list action) (s0 : state) :
  NoDup (map name wallets) ->
  complete (dispatch e 0 wallets) sched ->
  submitted s0 = [] ->
  (forall n, submissions_of n (trace s0) = []) ->
  (forall n,
      (List.length
         (records_of n
            (submitted
               (final_state
                  (race e burn_cost wallets (dispatch e 0 wallets) sched s0))))
       <= 1)%nat)
  /\ (forall n,
        List.length
          (records_of n
             (submitted
                (final_state
                   (race e burn_cost wallets (dispatch e 0 wallets) sched s0))))
        = List.length
            (submissions_of n
               (trace
                  (final_state
                     (race e burn_cost wallets (dispatch e 0 wallets) sched
                        s0)))))
  /\ (forall w s,
        success_event s = true \/ task_late e (name w) = true ->
        submit_one e burn_cost w s = Ret None s)
  /\ (forall w s bal s1,
        success_event s = false -> task_late e (name w) = false ->
        _get_wallet_balance e w s = Ret bal s1 ->
        balance_gate bal burn_cost = false ->
        submit_one e burn_cost w s = Ret None s1
        /\ submitted s1 = submitted s
        /\ forall n, submissions_of n (trace s1) = submissions_of n (trace s)).
Proof.
  intros Hnd Hcomplete Hlog0 Hsub0.
  split; [| split; [| split]].
  - intros n.
    pose proof (race_bound e burn_cost wallets (dispatch e 0 wallets) sched
                  s0 n) as Hb.
    rewrite Hlog0 in Hb. cbn [records_of filter List.length] in Hb.
    rewrite (named_permutation n _ _ Hcomplete) in Hb.
    pose proof (named_dispatch e n 0 wallets).
    pose proof (named_nodup n wallets Hnd).
    lia.
  - intros n.
    pose proof (race_rps e burn_cost wallets (dispatch e 0 wallets) sched
                  s0 n) as Hr.
    rewrite Hlog0, Hsub0 in Hr. cbn [records_of filter List.length] in Hr.
    lia.
  - intros w s. apply submit_one_stopped.
  - intros w s bal s1 Hunset Hearly Hbal Hgate.
    destruct (submit_one_running e burn_cost w s Hunset Hearly)
      as (bal' & s1' & Hbal' & Hlog & Hsub & Hskip & _).
    rewrite Hbal in Hbal'. injection Hbal' as <- <-.
    repeat split; [apply Hskip, Hgate | exact Hlog | exact Hsub].
Qed.

Lemma sample_names_nodup :
  NoDup (map name (load_wallets Samples.cold_2_wins COLDKEY_NAMES)).
Proof.
  vm_compute. repeat constructor; cbn; intuition discriminate.
Qed.

Lemma C4_records_witness :
  complete
    (dispatch Samples.cold_2_wins 0
       (load_wallets Samples.cold_2_wins COLDKEY_NAMES))
    (schedule Samples.cold_2_wins)
  /\ forall n,
      (List.length
         (records_of n
            (submitted
               (final_state
                  (race Samples.cold_2_wins (PyBalance 1000000000)
                     (load_wallets Samples.cold_2_wins COLDKEY_NAMES)
                     (dispatch Samples.cold_2_wins 0
                        (load_wallets Samples.cold_2_wins COLDKEY_NAMES))
                     (schedule Samples.cold_2_wins) initial))))
       <= 1)%nat.
Proof.
  assert (Hc : complete
                 (dispatch Samples.cold_2_wins 0
                    (load_wallets Samples.cold_2_wins COLDKEY_NAMES))
                 (schedule Samples.cold_2_wins))
    by (vm_compute; apply Permutation_refl).
  split; [exact Hc |].
  apply (C4_records Samples.cold_2_wins (PyBalance 1000000000)
           (load_wallets Samples.cold_2_wins COLDKEY_NAMES)
           (schedule Samples.cold_2_wins) initial
           sample_names_nodup Hc eq_refl (fun _ => eq_refl)).
Defined.

(** C4 fails as stated: with every balance below the cost the three
    identities are dispatched, each task is rejected by the gate, and the
    log of the cycle is empty: no record, not one, for [cold_1]. *)
Lemma C4_counterexample :
  In (Samples.stored "cold_1")
     (dispatch Samples.all_poor 0
        (load_wallets Samples.all_poor COLDKEY_NAMES))
  /\ complete
       (dispatch Samples.all_poor 0
          (load_wallets Samples.all_poor COLDKEY_NAMES))
       (schedule Samples.all_poor)
  /\ exists s,
      main 0 Samples.all_poor initial = Ret (NoRegistration []) s
      /\ records_of "cold_1" (submitted s) = []
      /\ List.length (records_of "cold_1" (submitted s)) <> 1%nat.
Proof.
  split; [left; reflexivity |].
  split; [vm_compute; apply Permutation_refl |].
  eexists. split; [vm_compute; reflexivity |].
  split; [reflexivity | discriminate].
Qed.

(** The run of the first sample: three records, one accepted, and the
    winner found by the watch loop. *)
Example main_cold_2_wins :
  exists s,
    main 0 Samples.cold_2_wins initial
    = Ret (Registered ("cold_2"%string, 7)) s
    /\ submitted s
       = [("cold_1", false, "TooManyRegistrationsThisBlock");
          ("cold_2", true, "True")]%string.
Proof. eexists. split; vm_compute; reflexivity. Qed.

End Coordinator.

(** ** The run without wallets *)

Module Setup.
Import Main Later Preservation.

Lemma setup_only_refl (s : state) : setup_only s s.
Proof.
  split; [| reflexivity]. exists []. split; [| reflexivity].
  symmetry. apply app_nil_r.
Qed.

Lemma setup_only_trans (s1 s2 s3 : state) :
  setup_only s1 s2 -> setup_only s2 s3 -> setup_only s1 s3.
Proof.
  intros [(l1 & Ht1 & Hp1) Hl1] [(l2 & Ht2 & Hp2) Hl2]. split.
  - exists (l1 ++ l2). split.
    + rewrite Ht2, Ht1. symmetry. apply app_assoc.
    + rewrite forallb_app, Hp1, Hp2. reflexivity.
  - unfold same_log in *. congruence.
Qed.

Lemma setup_only_add_event (ev : event) (s : state) :
  setup_event ev = true -> setup_only s (add_event ev s).
Proof.
  intros Hev. split; [| reflexivity].
  exists [ev]. split; [reflexivity |]. cbn. rewrite Hev. reflexivity.
Qed.

Lemma setup_only_next_block_call (s : state) :
  setup_only s (next_block_call s).
Proof.
  split; [| reflexivity]. exists []. split; [| reflexivity].
  symmetry. apply app_nil_r.
Qed.

Ltac setup_prim :=
  first [ apply setup_only_add_event; reflexivity
        | apply setup_only_next_block_call ].

Ltac setup := pres_with setup_only_refl setup_only_trans setup_prim.

Lemma get_current_block_setup e : preserves setup_only (_get_current_block e).
Proof. unfold _get_current_block. setup. Qed.

Lemma coarse_wait_setup fuel e target :
  preserves setup_only (coarse_wait fuel e target).
Proof.
  induction fuel as [| fuel IH]; cbn [coarse_wait].
  - intros s. apply setup_only_refl.
  - setup; first [apply get_current_block_setup | exact IH].
Qed.

Lemma fine_wait_setup fuel e target :
  preserves setup_only (fine_wait fuel e target).
Proof.
  induction fuel as [| fuel IH]; cbn [fine_wait].
  - intros s. apply setup_only_refl.
  - setup; first [apply get_current_block_setup | exact IH].
Qed.

(** What the scheduler does once the height and the tempo are read. *)
Lemma scheduler_rest_setup fuel e (block : option Z) (epoch_length : Z) :
  preserves setup_only
    match block with
    | None => ret tt
    | Some block =>
        bt <- epoch_target block epoch_length ;;
        if fst bt =? 0 then ret tt
        else coarse_wait fuel e (snd bt) ;; fine_wait fuel e (snd bt)
    end.
Proof.
  unfold epoch_target, py_mod. setup;
    first [apply coarse_wait_setup | apply fine_wait_setup].
Qed.

Lemma scheduler_setup fuel e :
  preserves setup_only (_wait_for_next_epoch_start fuel e).
Proof.
  unfold _wait_for_next_epoch_start.
  apply (pres_bind _ setup_only_trans); [apply get_current_block_setup |].
  intros block.
  apply (pres_bind _ setup_only_trans).
  - apply (pres_call _ setup_only_refl setup_only_trans).
    intros s. apply setup_only_add_event. reflexivity.
  - intros epoch_length. apply scheduler_rest_setup.
Qed.







End Setup.

(** * Further properties of main.py *)

(** ** The wrappers around the SDK *)

Module Wrappers.
Import Main.

(** X1. [_get_wallet_balance] never raises and makes at most one remote
    call, a balance query: none when the coldkey address cannot be read
    (the answer is then [None]), one otherwise, whose answer is returned
    as it is, or [None] when the query raises. *)
Theorem X1_get_wallet_balance (e : env) (w : wallet) (s : state) :
  exists v s',
    _get_wallet_balance e w s = Ret v s'
    /\ match coldkeypub w with
       | Raise _ => v = PyNone /\ s' = s
       | Ok address =>
           s' = add_event (QueryBalance address) s
           /\ match get_balance e address with
              | Ok answer => v = answer
              | Raise _ => v = PyNone
              end
       end.
Proof.
  unfold _get_wallet_balance.
  destruct (coldkeypub w) as [address | x].
  - unfold try_except, call, bind, emit, ret, raise.
    destruct (get_balance e address) as [answer | x];
      eexists; eexists; repeat split.
  - exists PyNone, s. repeat split.
Qed.

(** The answer of [_try_register], by the outcome of the submission. *)
Lemma try_register_cases (e : env) (w : wallet) (s : state) :
  exists ok info,
    _try_register e w s
    = Ret (ok, info) (add_event (SubmitRegister (name w)) s)
    /\ (ok = true <-> burned_register e (name w) = Ok info)
    /\ (ok = false <->
        exists x, burned_register e (name w) = Raise x /\ info = str_exn x).
Proof.
  unfold _try_register, try_except, call, bind, emit, ret, raise.
  destruct (burned_register e (name w)) as [res0 | x] eqn:Hreg.
  - exists true, res0. split; [reflexivity |]. split; split; intros H;
      try reflexivity; try discriminate.
    destruct H as (x & Hx & _). discriminate.
  - exists false, (str_exn x). split; [reflexivity |]. split; split; intros H;
      try reflexivity; try discriminate.
    exists x. split; reflexivity.
Qed.

(** The answer of [_get_uid_for_hotkey], by the outcome of the direct
    query. *)
Lemma get_uid_for_hotkey_cases (e : env) (t : nat) (hot : string) (s : state) :
  exists uid s',
    _get_uid_for_hotkey e t hot s = Ret uid s'
    /\ match get_uid_for_hotkey_on_subnet e t hot with
       | Ok answer =>
           uid = answer /\ s' = add_event (QueryUid hot) s
       | Raise _ =>
           s' = add_event (QueryRegistered hot) (add_event (QueryUid hot) s)
           /\ (uid = Some 1 <->
               is_hotkey_registered_on_subnet e t hot = Ok true)
           /\ (uid = None <->
               is_hotkey_registered_on_subnet e t hot <> Ok true)
       end.
Proof.
  unfold _get_uid_for_hotkey, try_except, call, bind, emit, ret, raise.
  destruct (get_uid_for_hotkey_on_subnet e t hot) as [answer | x].
  - eexists; eexists; repeat split.
  - destruct (is_hotkey_registered_on_subnet e t hot) as [[|] | y];
      eexists; eexists; (split; [reflexivity |]);
      (split; [reflexivity |]); split; split; intros H;
      try reflexivity; try discriminate; try congruence.
Qed.

(** X2. [_try_register] never raises and makes exactly one remote call;
    the flag it returns is true exactly when [burned_register] returned,
    and the text is then its result, otherwise the message of the
    exception. *)
Theorem X2_try_register (e : env) (w : wallet) (s : state) :
  exists ok info,
    _try_register e w s
    = Ret (ok, info) (add_event (SubmitRegister (name w)) s)
    /\ (ok = true <-> burned_register e (name w) = Ok info)
    /\ (ok = false <->
        exists x, burned_register e (name w) = Raise x /\ info = str_exn x).
Proof.
  unfold _try_register, try_except, call, bind, emit, ret, raise.
  destruct (burned_register e (name w)) as [res0 | x] eqn:Hreg.
  - exists true, res0. split; [reflexivity |]. split; split; intros H;
      try reflexivity; try discriminate.
    destruct H as (x & Hx & _). discriminate.
  - exists false, (str_exn x). split; [reflexivity |]. split; split; intros H;
      try reflexivity; try discriminate.
    exists x. split; reflexivity.
Qed.

(** X3. [_get_uid_for_hotkey] never raises. An answer of the direct query
    is returned as it is (uid 0 and [None] included) after that one
    query; the fallback is asked only when the direct query raises, and
    the result is then 1 or [None], [None] also when the fallback raises. *)
Theorem X3_get_uid_for_hotkey (e : env) (t : nat) (hot : string) (s : state) :
  exists uid s',
    _get_uid_for_hotkey e t hot s = Ret uid s'
    /\ match get_uid_for_hotkey_on_subnet e t hot with
       | Ok answer =>
           uid = answer /\ s' = add_event (QueryUid hot) s
       | Raise _ =>
           s' = add_event (QueryRegistered hot) (add_event (QueryUid hot) s)
           /\ (uid = Some 1 <->
               is_hotkey_registered_on_subnet e t hot = Ok true)
           /\ (uid = None <->
               is_hotkey_registered_on_subnet e t hot <> Ok true)
       end.
Proof.
  unfold _get_uid_for_hotkey, try_except, call, bind, emit, ret, raise.
  destruct (get_uid_for_hotkey_on_subnet e t hot) as [answer | x].
  - eexists; eexists; repeat split.
  - destruct (is_hotkey_registered_on_subnet e t hot) as [[|] | y];
      eexists; eexists; (split; [reflexivity |]);
      (split; [reflexivity |]); split; split; intros H;
      try reflexivity; try discriminate; try congruence.
Qed.

End Wrappers.

(** ** Loading and dispatching the wallets *)

Module Wallets.
Import Main.

Lemma load_one_empty (e : env) (n : string) :
  load_one e n = [] <->
  exists x y, wallet_by_name e n = Raise x /\ wallet_by_hotkey e n = Raise y.
Proof.
  unfold load_one, load_wallet. split.
  - destruct (wallet_by_name e n) as [w | x].
    + destruct (hotkey w); [discriminate |].
      destruct (wallet_by_hotkey e n); discriminate.
    + destruct (wallet_by_hotkey e n) as [w | y].
      * destruct (hotkey w); discriminate.
      * intros _. exists x, y. split; reflexivity.
  - intros (x & y & -> & ->). reflexivity.
Qed.

Lemma load_one_source (e : env) (n : string) (w : wallet) :
  In w (load_one e n) ->
  wallet_by_name e n = Ok w \/ wallet_by_hotkey e n = Ok w.
Proof.
  unfold load_one, load_wallet.
  destruct (wallet_by_name e n) as [w1 | x].
  - destruct (hotkey w1).
    + intros [<- | []]. left. reflexivity.
    + destruct (wallet_by_hotkey e n) as [w2 | y].
      * intros [<- | []]. right. reflexivity.
      * intros [<- | []]. left. reflexivity.
  - destruct (wallet_by_hotkey e n) as [w2 | y]; [| intros []].
    destruct (hotkey w2); intros [<- | []]; right; reflexivity.
Qed.

Lemma load_one_length (e : env) (n : string) :
  (List.length (load_one e n) <= 1)%nat.
Proof.
  unfold load_one.
  destruct (load_wallet e n) as [w | x]; [| cbn; lia].
  destruct (hotkey w); [cbn; lia |].
  destruct (wallet_by_hotkey e n); cbn; lia.
Qed.

(** X4. The loading loop appends at most one wallet per name; every
    wallet it appends is what one of the two constructors returned for
    one of the names; and the list is empty, the case in which [main]
    gives up, exactly when both constructors raise for every name. *)
Theorem X4_load_wallets (e : env) (names : list string) :
  (List.length (load_wallets e names) <= List.length names)%nat
  /\ (forall w,
        In w (load_wallets e names) ->
        exists n,
          In n names
          /\ (wallet_by_name e n = Ok w \/ wallet_by_hotkey e n = Ok w))
  /\ (load_wallets e names = [] <->
      forall n, In n names ->
        exists x y,
          wallet_by_name e n = Raise x /\ wallet_by_hotkey e n = Raise y).
Proof.
  unfold load_wallets. split; [| split].
  - induction names as [| n rest IH]; cbn [flat_map]; [cbn; lia |].
    rewrite length_app. pose proof (load_one_length e n).
    cbn [List.length]. lia.
  - intros w Hin. apply in_flat_map in Hin as (n & Hn & Hw).
    exists n. split; [exact Hn | apply load_one_source, Hw].
  - induction names as [| n rest IH]; cbn [flat_map].
    + split; [intros _ n [] | reflexivity].
    + split.
      * intros Hnil. apply app_eq_nil in Hnil as [Hone Hrest].
        intros m [<- | Hm]; [apply load_one_empty, Hone |].
        apply (proj1 IH Hrest m Hm).
      * intros Hall.
        rewrite (proj2 (load_one_empty e n) (Hall n (or_introl eq_refl))).
        apply IH. intros m Hm. apply Hall. right. exact Hm.
Qed.

(** X5. The dispatch loop hands a prefix of the wallets to the pool: it
    stops at the first turn at which the clock has passed the deadline,
    and nothing after that turn is dispatched. *)
Theorem X5_dispatch_prefix (e : env) (i : nat) (ws : list wallet) :
  exists k : nat,
    dispatch e i ws = firstn k ws
    /\ (k <= List.length ws)%nat
    /\ (forall j, (j < k)%nat -> dispatch_late e (i + j) = false)
    /\ ((k < List.length ws)%nat -> dispatch_late e (i + k) = true).
Proof.
  revert i. induction ws as [| w rest IH]; intros i.
  - exists 0%nat. cbn. repeat split; intros; lia.
  - cbn [dispatch]. destruct (dispatch_late e i) eqn:Hlate.
    + exists 0%nat. cbn [firstn List.length].
      split; [reflexivity |]. split; [lia |]. split; [intros j Hj; lia |].
      intros _. rewrite Nat.add_0_r. exact Hlate.
    + destruct (IH (S i)) as (k & Heq & Hle & Hearly & Hstop).
      exists (S k). cbn [firstn List.length]. rewrite Heq.
      split; [reflexivity |]. split; [lia |]. split.
      * intros [| j] Hj; [rewrite Nat.add_0_r; exact Hlate |].
        replace (i + S j)%nat with (S i + j)%nat by lia.
        apply Hearly. lia.
      * intros Hk. replace (i + S k)%nat with (S i + k)%nat by lia.
        apply Hstop. lia.
Qed.

End Wallets.

(** ** The race as a whole *)

Module RaceFacts.
Import Main Later Preservation.

Lemma submit_one_returns e burn_cost w (s : state) :
  exists r s', submit_one e burn_cost w s = Ret r s'.
Proof.
  destruct (success_event s) eqn:Hset;
    [eexists; eexists; apply Coordinator.submit_one_stopped; left; exact Hset |].
  destruct (task_late e (name w)) eqn:Hlate;
    [eexists; eexists; apply Coordinator.submit_one_stopped; right;
     exact Hlate |].
  destruct (Coordinator.submit_one_running e burn_cost w s Hset Hlate)
    as (bal & s1 & _ & _ & _ & Hskip & Hgo).
  destruct (balance_gate bal burn_cost).
  - destruct (Hgo eq_refl) as (ok & info & ->). eexists; eexists; reflexivity.
  - rewrite (Hskip eq_refl). eexists; eexists; reflexivity.
Qed.

Lemma scan_wallets_returns e ws (s : state) :
  exists s', scan_wallets e ws s = Ret tt s'.
Proof.
  revert s. induction ws as [| w rest IH]; intros s; cbn [scan_wallets].
  - eexists. reflexivity.
  - destruct (hotkey w) as [hot | x]; [| apply IH].
    unfold bind at 1, gets at 1. unfold bind at 1.
    destruct (Wrappers.get_uid_for_hotkey_cases e (tick_count s) hot s)
      as (uid & s1 & -> & _).
    destruct uid as [u |]; [| apply IH].
    destruct (u =? 0); [apply IH |]. eexists. reflexivity.
Qed.

Lemma watch_step_returns e ws (s : state) :
  exists s', watch_step e ws s = Ret tt s'.
Proof.
  unfold watch_step, bind at 1, gets at 1.
  destruct (watching s); [| eexists; reflexivity].
  unfold bind at 1, gets at 1, bind at 1, gets at 1.
  destruct (watch_in_time e (tick_count s) && negb (success_event s));
    [| eexists; reflexivity].
  unfold bind at 1.
  destruct (scan_wallets_returns e ws s) as (s1 & ->).
  eexists. reflexivity.
Qed.

Lemma step_returns e burn_cost wallets futures a (s : state) :
  exists s', step e burn_cost wallets futures a s = Ret tt s'.
Proof.
  destruct a as [i |]; cbn [step]; [| apply watch_step_returns].
  destruct (nth_error futures i) as [w |]; [| eexists; reflexivity].
  unfold bind. destruct (submit_one_returns e burn_cost w s) as (r & s1 & ->).
  eexists. reflexivity.
Qed.

(** The race neither raises nor runs out of fuel. *)
Lemma race_returns e burn_cost wallets futures sched (s : state) :
  exists s', race e burn_cost wallets futures sched s = Ret tt s'.
Proof.
  revert s. induction sched as [| a rest IH]; intros s; cbn [race].
  - eexists. reflexivity.
  - unfold bind.
    destruct (step_returns e burn_cost wallets futures a s) as (s1 & ->).
    apply IH.
Qed.

(** How the scheduler can raise. *)
Lemma scheduler_raise_cause (fuel : nat) (e : env) (s s' : state) (x : exn) :
  _wait_for_next_epoch_start fuel e s = Exc x s' ->
  metagraph_tempo e = Raise x
  \/ (x = ZeroDivisionError /\ metagraph_tempo e = Ok 0).
Proof.
  intros Hexc.
  destruct (metagraph_tempo e) as [p | y] eqn:Htempo.
  - destruct (Z.eq_dec p 0) as [-> | Hp].
    + right. split; [| reflexivity].
      revert Hexc. unfold _wait_for_next_epoch_start, bind at 1.
      destruct (WindowScheduler.get_current_block_total e s)
        as (block & s1 & -> & _).
      unfold call, bind, emit, ret. rewrite Htempo.
      destruct block as [h |]; [| discriminate]. cbn. congruence.
    + exfalso.
      apply (WindowScheduler.scheduler_no_raise_with_tempo fuel e s p
               Htempo Hp).
      rewrite Hexc. exact I.
  - left. revert Hexc. unfold _wait_for_next_epoch_start, bind at 1.
    destruct (WindowScheduler.get_current_block_total e s)
      as (block & s1 & -> & _).
    unfold call, bind, emit, ret, raise. rewrite Htempo. congruence.
Qed.

(** X6. An exception can leave [main] only during the setup: it is the
    exception of the connection, of the cost query or of the metagraph
    query, or the [ZeroDivisionError] of a zero tempo. By then no balance
    was queried, nothing was submitted and no membership was looked up;
    once the wallets are loaded nothing raises. *)
Theorem X6_main_raises_only_in_setup (fuel : nat) (e : env) (x : exn)
  (s : state) :
  main fuel e initial = Exc x s ->
  (connect e = Raise x
   \/ get_subnet_burn_cost e = Raise x
   \/ metagraph_tempo e = Raise x
   \/ (x = ZeroDivisionError /\ metagraph_tempo e = Ok 0))
  /\ forallb setup_event (trace s) = true
  /\ submitted s = [].
Proof.
  unfold main, bind at 1, call, bind at 1, emit.
  destruct (connect e) as [u | y].
  2:{ unfold raise. intros H. injection H as <- <-.
      split; [left; reflexivity | split; reflexivity]. }
  unfold ret at 1, bind at 1, _get_registration_cost, call, bind at 1, emit.
  destruct (get_subnet_burn_cost e) as [burn_cost | y].
  2:{ unfold raise. intros H. injection H as <- <-.
      split; [right; left; reflexivity | split; reflexivity]. }
  unfold ret at 1, bind at 1. cbv beta iota delta [USE_EPOCH_START].
  set (s2 := add_event QueryBurnCost (add_event Connect initial)).
  pose proof (Setup.scheduler_setup fuel e s2) as [(l & Hl & Hp) Hlog].
  destruct (_wait_for_next_epoch_start fuel e s2) as [[] s3 | y s3 | s3]
    eqn:Hs; cbn [final_state] in *.
  - destruct (load_wallets e COLDKEY_NAMES) as [| w ws];
      [unfold ret; discriminate |].
    unfold bind at 1.
    destruct (race_returns e burn_cost (w :: ws)
                (dispatch e 0 (w :: ws)) (schedule e) s3) as (s4 & ->).
    unfold gets. discriminate.
  - intros H. injection H as <- <-.
    split; [right; right; apply (scheduler_raise_cause _ _ _ _ _ Hs) |].
    split; [rewrite Hl; cbn; exact Hp | exact Hlog].
  - discriminate.
Qed.

Lemma X6_main_raises_only_in_setup_witness :
  main 0 Samples.node_down initial
  = Exc Samples.unreachable (final_state (main 0 Samples.node_down initial))
  /\ metagraph_tempo Samples.node_down = Raise Samples.unreachable
  /\ submitted (final_state (main 0 Samples.node_down initial)) = [].
Proof.
  assert (H : main 0 Samples.node_down initial
              = Exc Samples.unreachable
                    (final_state (main 0 Samples.node_down initial)))
    by (vm_compute; reflexivity).
  split; [exact H |].
  destruct (X6_main_raises_only_in_setup 0 Samples.node_down
              Samples.unreachable _ H) as (_ & _ & Hlog).
  split; [reflexivity | exact Hlog].
Defined.

End RaceFacts.

(** ** After the signal, and what the signal and the log hold *)

Module RaceInvariants.
Import Main Later Preservation Invariants.


(** *** The payload of the signal *)

Lemma same_signal_refl (s : state) : same_signal s s.
Proof. split; reflexivity. Qed.

Lemma same_signal_trans (s1 s2 s3 : state) :
  same_signal s1 s2 -> same_signal s2 s3 -> same_signal s1 s3.
Proof. unfold same_signal. intros [? ?] [? ?]. split; congruence. Qed.

Ltac keep_signal :=
  pres_with same_signal_refl same_signal_trans ltac:(split; reflexivity).

Lemma submit_one_same_signal e burn_cost w :
  preserves same_signal (submit_one e burn_cost w).
Proof.
  unfold submit_one, _get_wallet_balance, _try_register. keep_signal.
Qed.

Lemma get_current_block_same_signal e :
  preserves same_signal (_get_current_block e).
Proof. unfold _get_current_block. keep_signal. Qed.

Lemma coarse_wait_same_signal fuel e target :
  preserves same_signal (coarse_wait fuel e target).
Proof.
  induction fuel as [| fuel IH]; cbn [coarse_wait].
  - intros s. apply same_signal_refl.
  - keep_signal; first [apply get_current_block_same_signal | exact IH].
Qed.

Lemma fine_wait_same_signal fuel e target :
  preserves same_signal (fine_wait fuel e target).
Proof.
  induction fuel as [| fuel IH]; cbn [fine_wait].
  - intros s. apply same_signal_refl.
  - keep_signal; first [apply get_current_block_same_signal | exact IH].
Qed.

Lemma scheduler_same_signal fuel e :
  preserves same_signal (_wait_for_next_epoch_start fuel e).
Proof.
  unfold _wait_for_next_epoch_start, epoch_target, py_mod.
  keep_signal;
    first [ apply get_current_block_same_signal
          | apply coarse_wait_same_signal | apply fine_wait_same_signal ].
Qed.

Lemma signal_ok_frame e wallets (s s' : state) :
  same_signal s s' -> signal_ok e wallets s -> signal_ok e wallets s'.
Proof.
  intros [Hs He] [Hiff Hwin]. unfold signal_ok. rewrite Hs, He.
  split; assumption.
Qed.

Lemma signal_ok_unset e wallets (s : state) :
  success s = None -> success_event s = false -> signal_ok e wallets s.
Proof.
  intros Hs He. unfold signal_ok. rewrite Hs, He. split.
  - split; [discriminate | intros H; exfalso; apply H; reflexivity].
  - discriminate.
Qed.

Lemma signal_ok_set e wallets (p : string * Z) (s : state) :
  winner_ok e wallets p -> signal_ok e wallets s ->
  signal_ok e wallets (set_success p s).
Proof.
  intros Hp Hok. unfold set_success.
  destruct (success_event s) eqn:He; [exact Hok |].
  split; cbn.
  - split; [discriminate | reflexivity].
  - intros q Hq. injection Hq as <-. exact Hp.
Qed.

Lemma scan_wallets_signal_ok e wallets ws (s s' : state) :
  incl ws wallets ->
  signal_ok e wallets s ->
  scan_wallets e ws s = Ret tt s' ->
  signal_ok e wallets s'.
Proof.
  revert s. induction ws as [| w rest IH]; intros s Hincl Hok;
    cbn [scan_wallets].
  - unfold ret. intros H. injection H as <-. exact Hok.
  - assert (Hrest : incl rest wallets)
      by (intros v Hv; apply Hincl; right; exact Hv).
    destruct (hotkey w) as [hot | x] eqn:Hhot; [| apply (IH s Hrest Hok)].
    unfold bind at 1, gets at 1. unfold bind at 1.
    destruct (Wrappers.get_uid_for_hotkey_cases e (tick_count s) hot s)
      as (uid & s1 & -> & Hcase).
    assert (Hok1 : signal_ok e wallets s1).
    { apply (signal_ok_frame e wallets s); [| exact Hok].
      destruct (get_uid_for_hotkey_on_subnet e (tick_count s) hot).
      - destruct Hcase as [_ ->]. split; reflexivity.
      - destruct Hcase as [-> _]. split; reflexivity. }
    destruct uid as [u |]; [| apply (IH s1 Hrest Hok1)].
    destruct (u =? 0) eqn:Hu; [apply (IH s1 Hrest Hok1) |].
    unfold modify. intros H. injection H as <-.
    apply signal_ok_set; [| exact Hok1].
    split; [cbn; apply Z.eqb_neq, Hu |].
    exists w, hot, (tick_count s). cbn [fst snd].
    split; [apply Hincl; left; reflexivity |].
    split; [reflexivity |]. split; [exact Hhot |].
    destruct (get_uid_for_hotkey_on_subnet e (tick_count s) hot) as [r | y].
    + left. destruct Hcase as [-> _]. reflexivity.
    + right. destruct Hcase as (_ & Hone & Hnone).
      destruct (is_hotkey_registered_on_subnet e (tick_count s) hot)
        as [[|] | z] eqn:Hfb.
      * pose proof (proj2 Hone eq_refl) as H1. injection H1 as ->.
        split; [reflexivity |]. split; [exists y; reflexivity | reflexivity].
      * exfalso. assert (Some u = None) by (apply Hnone; discriminate).
        discriminate.
      * exfalso. assert (Some u = None) by (apply Hnone; discriminate).
        discriminate.
Qed.

Lemma watch_step_signal_ok e wallets (s s' : state) :
  signal_ok e wallets s ->
  watch_step e wallets s = Ret tt s' ->
  signal_ok e wallets s'.
Proof.
  intros Hok. unfold watch_step, bind at 1, gets at 1.
  destruct (watching s).
  2:{ unfold ret. intros H. injection H as <-. exact Hok. }
  unfold bind at 1, gets at 1, bind at 1, gets at 1.
  destruct (watch_in_time e (tick_count s) && negb (success_event s)).
  2:{ unfold modify. intros H. injection H as <-.
      apply (signal_ok_frame e wallets s); [split; reflexivity | exact Hok]. }
  unfold bind at 1.
  destruct (RaceFacts.scan_wallets_returns e wallets s) as (s1 & Hscan).
  rewrite Hscan. unfold bind, emit, modify. intros H. injection H as <-.
  apply (signal_ok_frame e wallets s1); [split; reflexivity |].
  apply (scan_wallets_signal_ok e wallets wallets s s1);
    [apply incl_refl | exact Hok | exact Hscan].
Qed.

Lemma race_signal_ok e burn_cost wallets futures sched (s s' : state) :
  signal_ok e wallets s ->
  race e burn_cost wallets futures sched s = Ret tt s' ->
  signal_ok e wallets s'.
Proof.
  revert s. induction sched as [| a rest IH]; intros s Hok; cbn [race].
  - unfold ret. intros H. injection H as <-. exact Hok.
  - unfold bind at 1.
    destruct (RaceFacts.step_returns e burn_cost wallets futures a s)
      as (s1 & Hstep).
    rewrite Hstep. apply IH.
    destruct a as [i |]; cbn [step] in Hstep.
    + destruct (nth_error futures i) as [w |].
      * pose proof (submit_one_same_signal e burn_cost w s) as Hsame.
        unfold bind in Hstep.
        destruct (submit_one e burn_cost w s) as [r s2 | x s2 | s2];
          try discriminate.
        cbn [final_state] in Hsame. unfold ret in Hstep.
        injection Hstep as <-.
        apply (signal_ok_frame e wallets s _ Hsame Hok).
      * unfold ret in Hstep. injection Hstep as <-. exact Hok.
    + apply (watch_step_signal_ok e wallets s s1 Hok Hstep).
Qed.

(** X8. A winner reported by [main] is accounted for by a membership
    lookup: it is one of the loaded wallets, with a readable hotkey, and
    its index is not 0 and is either what the direct query answered for
    that hotkey at some turn of the watch loop, or 1 from the fallback at
    a turn at which the direct query raised. An accepted submission alone
    never makes a winner. *)
Theorem X8_reported_winner (fuel : nat) (e : env) (p : string * Z)
  (s : state) :
  main fuel e initial = Ret (Registered p) s ->
  winner_ok e (load_wallets e COLDKEY_NAMES) p.
Proof.
  unfold main, bind at 1, call, bind at 1, emit.
  destruct (connect e) as [u | y]; [| unfold raise; discriminate].
  unfold ret at 1, bind at 1, _get_registration_cost, call, bind at 1, emit.
  destruct (get_subnet_burn_cost e) as [burn_cost | y];
    [| unfold raise; discriminate].
  unfold ret at 1, bind at 1. cbv beta iota delta [USE_EPOCH_START].
  set (s2 := add_event QueryBurnCost (add_event Connect initial)).
  pose proof (scheduler_same_signal fuel e s2) as [Hs He].
  destruct (_wait_for_next_epoch_start fuel e s2) as [[] s3 | y s3 | s3];
    try discriminate.
  cbn [final_state] in Hs, He.
  destruct (load_wallets e COLDKEY_NAMES) as [| w ws] eqn:Hload;
    [unfold ret; discriminate |].
  unfold bind at 1.
  destruct (RaceFacts.race_returns e burn_cost (w :: ws)
              (dispatch e 0 (w :: ws)) (schedule e) s3) as (s4 & Hrace).
  rewrite Hrace. unfold gets. intros H. injection H as Hrep <-.
  assert (Hok : signal_ok e (w :: ws) s4).
  { apply (race_signal_ok _ _ _ _ _ _ _ (signal_ok_unset e _ s3 Hs He) Hrace). }
  destruct Hok as [_ Hwin]. apply Hwin.
  unfold final_report in Hrep.
  destruct (success_event s4); [| discriminate].
  destruct (success s4) as [q |]; [| discriminate].
  injection Hrep as ->. reflexivity.
Qed.

Lemma X8_reported_winner_witness :
  winner_ok Samples.cold_2_wins
    (load_wallets Samples.cold_2_wins COLDKEY_NAMES) ("cold_2"%string, 7).
Proof.
  apply (X8_reported_winner 0 Samples.cold_2_wins ("cold_2"%string, 7)
           (final_state (main 0 Samples.cold_2_wins initial))).
  vm_compute. reflexivity.
Defined.

(** *** The records of the log *)

Lemma submit_one_log_ok e burn_cost futures w (s : state) :
  In w futures ->
  log_ok e futures s ->
  log_ok e futures (final_state (submit_one e burn_cost w s)).
Proof.
  intros Hin Hok.
  destruct (success_event s) eqn:Hset;
    [rewrite Coordinator.submit_one_stopped by (left; exact Hset);
     exact Hok |].
  destruct (task_late e (name w)) eqn:Hlate;
    [rewrite Coordinator.submit_one_stopped by (right; exact Hlate);
     exact Hok |].
  destruct (Coordinator.get_wallet_balance_total e w s)
    as (bal & s1 & Hbal & Hlog & _ & _).
  destruct (Wrappers.try_register_cases e w s1)
    as (ok & info & Hreg & Htrue & Hfalse).
  unfold submit_one, bind at 1, gets.
  rewrite Hset, Hlate. cbn [orb].
  unfold bind at 1, try_except at 1. rewrite Hbal.
  destruct (balance_gate bal burn_cost).
  - unfold bind, modify, ret. rewrite Hreg.
    cbn [final_state append_submitted add_event submitted fst snd].
    unfold log_ok in *. unfold append_submitted, add_event.
    cbn [submitted]. rewrite Hlog.
    apply Forall_app. split; [exact Hok |].
    constructor; [| constructor].
    unfold record_ok. cbn [fst snd].
    split; [apply in_map, Hin |].
    split; [apply Htrue | apply Hfalse].
  - unfold ret. cbn [final_state]. unfold log_ok in *. rewrite Hlog.
    exact Hok.
Qed.

(** X9. Every record of the log tells what happened: it carries the name
    of a dispatched wallet, and with a true flag the result that
    [burned_register] returned for that wallet, with a false flag the
    message of the exception it raised. The membership lookups write no
    record. *)
Theorem X9_log_truthful e burn_cost wallets futures sched (s0 : state) :
  submitted s0 = [] ->
  Forall (record_ok e futures)
    (submitted (final_state (race e burn_cost wallets futures sched s0))).
Proof.
  intros Hempty.
  assert (Hok0 : log_ok e futures s0)
    by (unfold log_ok; rewrite Hempty; constructor).
  clear Hempty. revert s0 Hok0.
  induction sched as [| a rest IH]; intros s Hok; cbn [race].
  - exact Hok.
  - rewrite Coordinator.final_bind.
    destruct (RaceFacts.step_returns e burn_cost wallets futures a s)
      as (s1 & Hstep).
    rewrite Hstep. apply IH.
    destruct a as [i |]; cbn [step] in Hstep.
    + destruct (nth_error futures i) as [w |] eqn:Hnth.
      * pose proof (submit_one_log_ok e burn_cost futures w s
                      (nth_error_In _ _ Hnth) Hok) as Hone.
        unfold bind in Hstep.
        destruct (submit_one e burn_cost w s) as [r s2 | x s2 | s2];
          try discriminate.
        unfold ret in Hstep. injection Hstep as <-. exact Hone.
      * unfold ret in Hstep. injection Hstep as <-. exact Hok.
    + pose proof (Coordinator.watch_step_same_log e wallets s) as Hsame.
      rewrite Hstep in Hsame. cbn [final_state] in Hsame.
      unfold log_ok, Later.same_log in *. rewrite Hsame. exact Hok.
Qed.

Lemma X9_log_truthful_witness :
  Forall
    (record_ok Samples.cold_2_wins
       (dispatch Samples.cold_2_wins 0
          (load_wallets Samples.cold_2_wins COLDKEY_NAMES)))
    (submitted
       (final_state
          (race Samples.cold_2_wins (PyBalance 1000000000)
             (load_wallets Samples.cold_2_wins COLDKEY_NAMES)
             (dispatch Samples.cold_2_wins 0
                (load_wallets Samples.cold_2_wins COLDKEY_NAMES))
             (schedule Samples.cold_2_wins) initial))).
Proof.
  apply (X9_log_truthful Samples.cold_2_wins (PyBalance 1000000000)
           (load_wallets Samples.cold_2_wins COLDKEY_NAMES)
           (dispatch Samples.cold_2_wins 0
              (load_wallets Samples.cold_2_wins COLDKEY_NAMES))
           (schedule Samples.cold_2_wins) initial).
  reflexivity.
Defined.

End RaceInvariants.

(** ** When the scheduler returns *)

Module SchedulerFacts.
Import Main.

Lemma fine_wait_exit (fuel : nat) (e : env) (target : Z) (s s' : state) :
  fine_wait fuel e target s = Ret tt s' ->
  (block_calls s < block_calls s')%nat
  /\ match get_current_block e (block_calls s' - 1) with
     | Ok b => target <= b
     | Raise _ => True
     end.
Proof.
  revert s. induction fuel as [| fuel IH]; intros s; cbn [fine_wait];
    [discriminate |].
  unfold bind at 1.
  destruct (get_current_block e (block_calls s)) as [b | x] eqn:Hb.
  - rewrite (WindowScheduler.get_current_block_ok e s b Hb).
    destruct (b >=? target) eqn:Hge.
    + unfold ret. intros H. injection H as <-. cbn [block_calls].
      split; [lia |].
      replace (S (block_calls s) - 1)%nat with (block_calls s) by lia.
      rewrite Hb. apply Z.geb_le in Hge. exact Hge.
    + unfold bind, emit. intros H. apply IH in H. cbn in H.
      destruct H as [Hlt Hlast]. split; [lia | exact Hlast].
  - rewrite (WindowScheduler.get_current_block_raise e s x Hb).
    unfold ret. intros H. injection H as <-. cbn [block_calls].
    split; [lia |].
    replace (S (block_calls s) - 1)%nat with (block_calls s) by lia.
    rewrite Hb. exact I.
Qed.

Lemma coarse_wait_calls (fuel : nat) (e : env) (target : Z) (s s' : state) :
  coarse_wait fuel e target s = Ret tt s' ->
  (block_calls s < block_calls s')%nat.
Proof.
  revert s. induction fuel as [| fuel IH]; intros s; cbn [coarse_wait];
    [discriminate |].
  unfold bind at 1.
  destruct (get_current_block e (block_calls s)) as [b | x] eqn:Hb.
  - rewrite (WindowScheduler.get_current_block_ok e s b Hb).
    destruct (b >=? target - 1).
    + unfold ret. intros H. injection H as <-. cbn. lia.
    + unfold bind, emit. intros H. apply IH in H. cbn in H. lia.
  - rewrite (WindowScheduler.get_current_block_raise e s x Hb).
    unfold ret. intros H. injection H as <-. cbn. lia.
Qed.

(** X10. When the first poll reads a height [h] that is not on an epoch
    boundary, the scheduler does not return before its target, the next
    multiple of the tempo after [h]: its last poll of the height either
    failed or read a height at or past the target. *)
Theorem X10_scheduler_fires_at_target (fuel : nat) (e : env) (s s' : state)
  (h p : Z) :
  get_current_block e (block_calls s) = Ok h ->
  metagraph_tempo e = Ok p ->
  0 < p -> h mod p <> 0 ->
  _wait_for_next_epoch_start fuel e s = Ret tt s' ->
  exists t : Z,
    h < t /\ t mod p = 0 /\ t - h < p
    /\ match get_current_block e (block_calls s' - 1) with
       | Ok b => t <= b
       | Raise _ => True
       end.
Proof.
  intros Hb Htempo Hp Hoff.
  pose proof (Z.mod_pos_bound h p Hp) as Hrem.
  assert (Hbu : (p - h mod p) mod p = p - h mod p)
    by (apply Z.mod_small; lia).
  unfold _wait_for_next_epoch_start, bind at 1.
  rewrite (WindowScheduler.get_current_block_ok e s h Hb).
  unfold call, bind at 1, bind at 1, emit. rewrite Htempo.
  unfold ret at 1, bind at 1.
  rewrite WindowScheduler.epoch_target_eq by lia. cbn [fst snd].
  rewrite Hbu. destruct (p - h mod p =? 0) eqn:Hz;
    [apply Z.eqb_eq in Hz; lia |].
  unfold bind.
  destruct (coarse_wait fuel e (h + (p - h mod p)) _) as [[] s1 | x s1 | s1];
    try discriminate.
  intros Hfine. apply fine_wait_exit in Hfine as [_ Hlast].
  exists (h + (p - h mod p)). repeat split; try lia; [| exact Hlast].
  rewrite <- Hbu. apply WindowScheduler.target_divisible. exact Hp.
Qed.

Lemma X10_scheduler_fires_at_target_witness :
  exists t : Z,
    725 < t /\ t mod 10 = 0 /\ t - 725 < 10
    /\ match
         get_current_block MoreSamples.ticking
           (block_calls
              (final_state
                 (_wait_for_next_epoch_start 8 MoreSamples.ticking initial))
            - 1)
       with
       | Ok b => t <= b
       | Raise _ => True
       end.
Proof.
  apply (X10_scheduler_fires_at_target 8 MoreSamples.ticking initial
           (final_state
              (_wait_for_next_epoch_start 8 MoreSamples.ticking initial))
           725 10).
  - reflexivity.
  - reflexivity.
  - lia.
  - vm_compute. discriminate.
  - vm_compute. reflexivity.
Defined.

Example ticking_polls :
  exists s',
    _wait_for_next_epoch_start 8 MoreSamples.ticking initial = Ret tt s'
    /\ block_calls s' = 6%nat
    /\ trace s'
       = [QueryBlock; QueryMetagraph;
          QueryBlock; Sleep 2000; QueryBlock; Sleep 2000;
          QueryBlock; Sleep 2000; QueryBlock; QueryBlock].
Proof. eexists. split; [vm_compute; reflexivity |]. split; reflexivity. Qed.

(** From poll [N] on, every height read is at or past [target]. *)
Lemma fine_wait_returns (N : nat) (e : env) (target : Z) :
  (forall k b, (N <= k)%nat -> get_current_block e k = Ok b -> target <= b) ->
  forall (fuel : nat) (s : state),
    (N - block_calls s < fuel)%nat ->
    exists s', fine_wait fuel e target s = Ret tt s'.
Proof.
  intros Hreach. induction fuel as [| fuel IH]; intros s Hfuel; [lia |].
  cbn [fine_wait]. unfold bind at 1.
  destruct (get_current_block e (block_calls s)) as [b | x] eqn:Hb.
  - rewrite (WindowScheduler.get_current_block_ok e s b Hb).
    destruct (b >=? target) eqn:Hge; [eexists; reflexivity |].
    unfold bind, emit. apply IH. cbn [block_calls add_event].
    destruct (Nat.le_gt_cases N (block_calls s)) as [Hle | Hgt]; [| lia].
    pose proof (Hreach _ _ Hle Hb).
    rewrite Z.geb_leb in Hge. apply Z.leb_gt in Hge. lia.
  - rewrite (WindowScheduler.get_current_block_raise e s x Hb).
    eexists. reflexivity.
Qed.

Lemma coarse_wait_returns (N : nat) (e : env) (target : Z) :
  (forall k b, (N <= k)%nat -> get_current_block e k = Ok b -> target <= b) ->
  forall (fuel : nat) (s : state),
    (N - block_calls s < fuel)%nat ->
    exists s', coarse_wait fuel e target s = Ret tt s'.
Proof.
  intros Hreach. induction fuel as [| fuel IH]; intros s Hfuel; [lia |].
  cbn [coarse_wait]. unfold bind at 1.
  destruct (get_current_block e (block_calls s)) as [b | x] eqn:Hb.
  - rewrite (WindowScheduler.get_current_block_ok e s b Hb).
    destruct (b >=? target - 1) eqn:Hge; [eexists; reflexivity |].
    unfold bind, emit. apply IH. cbn [block_calls add_event].
    destruct (Nat.le_gt_cases N (block_calls s)) as [Hle | Hgt]; [| lia].
    pose proof (Hreach _ _ Hle Hb).
    rewrite Z.geb_leb in Hge. apply Z.leb_gt in Hge. lia.
  - rewrite (WindowScheduler.get_current_block_raise e s x Hb).
    eexists. reflexivity.
Qed.

(** X11. With the metagraph answered and a non-zero tempo, the scheduler
    returns as soon as the chain has got to the target: if from the N-th
    poll on every height read is at or past the boundary computed from
    the first poll, then [N + 1] turns of each loop are enough, whatever
    the earlier polls read and whichever polls fail. *)
Theorem X11_scheduler_returns (N fuel : nat) (e : env) (s : state) (p : Z) :
  metagraph_tempo e = Ok p ->
  p <> 0 ->
  (forall h k b,
      get_current_block e (block_calls s) = Ok h ->
      (N <= k)%nat -> get_current_block e k = Ok b ->
      h + (p - h mod p) mod p <= b) ->
  (N < fuel)%nat ->
  exists s', _wait_for_next_epoch_start fuel e s = Ret tt s'.
Proof.
  intros Htempo Hp Hreach Hfuel.
  unfold _wait_for_next_epoch_start, bind at 1.
  destruct (get_current_block e (block_calls s)) as [h | x] eqn:Hb.
  - rewrite (WindowScheduler.get_current_block_ok e s h Hb).
    unfold call, bind at 1, bind at 1, emit. rewrite Htempo.
    unfold ret at 1, bind at 1.
    rewrite WindowScheduler.epoch_target_eq by exact Hp. cbn [fst snd].
    destruct (_ =? 0); [eexists; reflexivity |].
    unfold bind.
    match goal with
    | |- context [coarse_wait fuel e ?t ?s0] =>
        destruct (coarse_wait_returns N e t (fun k b => Hreach h k b eq_refl)
                    fuel s0 ltac:(lia)) as (s1 & Hc);
        rewrite Hc;
        apply (fine_wait_returns N e t (fun k b => Hreach h k b eq_refl));
        lia
    end.
  - rewrite (WindowScheduler.get_current_block_raise e s x Hb).
    unfold call, bind, emit, ret. rewrite Htempo. eexists. reflexivity.
Qed.

Lemma X11_scheduler_returns_witness :
  exists s', _wait_for_next_epoch_start 6 MoreSamples.ticking initial = Ret tt s'.
Proof.
  apply (X11_scheduler_returns 5 6 MoreSamples.ticking initial 10).
  - reflexivity.
  - discriminate.
  - intros h k b Hh Hk Hb.
    change (Ok 725 = Ok h) in Hh.
    change (Ok (725 + Z.of_nat k) = Ok b) in Hb.
    assert (Hh' : h = 725) by congruence.
    assert (Hb' : b = 725 + Z.of_nat k) by congruence.
    rewrite Hh', Hb'. change ((10 - 725 mod 10) mod 10) with 5. lia.
  - lia.
Defined.

End SchedulerFacts.

(** * Further properties of monkey.py *)

(** ** The windows of successive cycles *)

Module CycleFacts.
Import Monkey MonkeyCycle.

Lemma advance_unfold (target_dt now_dt : Z) :
  advance target_dt now_dt
  = if Z_le_gt_dec target_dt now_dt
    then advance (target_dt + cycle) now_dt
    else target_dt.
Proof.
  rewrite advance_equation_1 at 1.
  destruct (Z_le_gt_dec target_dt now_dt); reflexivity.
Qed.

(** Advancing again at a later time gives what advancing once at that
    later time gives. *)
Lemma advance_again (target_dt now1 now2 : Z) :
  now1 <= now2 ->
  advance (advance target_dt now1) now2 = advance target_dt now2.
Proof.
  intros Hle. funelim (advance target_dt now1).
  - rewrite H by exact Hle.
    rewrite (advance_unfold target_dt now2).
    destruct (Z_le_gt_dec target_dt now2); [reflexivity | lia].
  - reflexivity.
Qed.

Lemma next_target_whole_seconds (last_dt now_dt : Z) :
  last_dt mod 1000000 = 0 -> next_target last_dt now_dt mod 1000000 = 0.
Proof.
  intros Hsec.
  unfold next_target.
  destruct (WallClock.advance_spec last_dt now_dt) as (k & _ & -> & _).
  rewrite WallClock.cycle_value.
  replace (last_dt + k * 4320000000) with (last_dt + (k * 4320) * 1000000)
    by lia.
  rewrite Z.mod_add by lia. exact Hsec.
Qed.

(** A target written back as text, parsed and advanced at a later time is
    the target of the first anchor at that later time. *)
Lemma next_target_after_reparse (last_dt now1 now2 : Z) :
  last_dt mod 1000000 = 0 ->
  now1 <= now2 ->
  next_target (reparse (next_target last_dt now1)) now2
  = next_target last_dt now2.
Proof.
  intros Hsec Hle.
  assert (Hre : reparse (next_target last_dt now1) = next_target last_dt now1).
  { unfold reparse. rewrite (next_target_whole_seconds _ _ Hsec). lia. }
  rewrite Hre. unfold next_target. apply advance_again, Hle.
Qed.

(** X12. Windows without success stay on the grid of the first anchor.
    For an anchor in whole seconds (as parsed from the command line) and
    a later cycle starting no earlier than the one before: writing the
    target back as text and parsing it loses nothing; the target of the
    later cycle is the one the first anchor gives at that later time, so
    no drift accumulates; targets never go back; and a cycle that starts
    before the previous target has passed aims at the same target again. *)
Theorem X12_windows_stay_aligned (last_dt now1 now2 : Z) :
  last_dt mod 1000000 = 0 ->
  now1 <= now2 ->
  reparse (next_target last_dt now1) = next_target last_dt now1
  /\ next_target (reparse (next_target last_dt now1)) now2
     = next_target last_dt now2
  /\ next_target last_dt now1 <= next_target last_dt now2
  /\ (now2 < next_target last_dt now1 ->
      next_target last_dt now2 = next_target last_dt now1).
Proof.
  intros Hsec Hle.
  assert (Hre : reparse (next_target last_dt now1) = next_target last_dt now1).
  { unfold reparse. rewrite (next_target_whole_seconds _ _ Hsec). lia. }
  assert (Hagain : next_target (next_target last_dt now1) now2
                   = next_target last_dt now2)
    by (unfold next_target; apply advance_again, Hle).
  split; [exact Hre |]. split; [rewrite Hre; exact Hagain |].
  split.
  - rewrite <- Hagain.
    unfold next_target at 2.
    destruct (WallClock.advance_spec (next_target last_dt now1) now2)
      as (k & Hk & -> & _).
    pose proof WallClock.cycle_value. nia.
  - intros Hearly. rewrite <- Hagain. unfold next_target at 1.
    rewrite advance_unfold.
    destruct (Z_le_gt_dec (next_target last_dt now1) now2); [lia |].
    reflexivity.
Qed.

Lemma X12_windows_stay_aligned_witness :
  next_target
    (reparse (next_target (timedelta_seconds 1757386896)
                (timedelta_seconds 1757386900 + 250000)))
    (timedelta_seconds 1757395000)
  = next_target (timedelta_seconds 1757386896) (timedelta_seconds 1757395000).
Proof.
  apply (X12_windows_stay_aligned (timedelta_seconds 1757386896)
           (timedelta_seconds 1757386900 + 250000)
           (timedelta_seconds 1757395000)).
  - reflexivity.
  - vm_compute. discriminate.
Defined.

(** The same along a whole run of failed windows. *)
Lemma targets_aligned (last_dt : Z) (nows : list Z) :
  last_dt mod 1000000 = 0 ->
  (forall (i j : nat) (a b : Z),
      (i <= j)%nat -> nth_error nows i = Some a -> nth_error nows j = Some b ->
      a <= b) ->
  targets last_dt nows = map (next_target last_dt) nows.
Proof.
  revert last_dt. assert (Hgen : forall nows t0 last_dt,
    last_dt mod 1000000 = 0 ->
    (forall a, In a nows -> t0 <= a) ->
    (forall (i j : nat) (a b : Z),
        (i <= j)%nat -> nth_error nows i = Some a ->
        nth_error nows j = Some b -> a <= b) ->
    targets (reparse (next_target last_dt t0)) nows
    = map (next_target last_dt) nows).
  { clear nows. induction nows as [| now_dt rest IH];
      intros t0 last_dt Hsec Hlow Hsorted; [reflexivity |].
    cbn [targets map].
    rewrite (next_target_after_reparse last_dt t0 now_dt Hsec
               (Hlow now_dt (or_introl eq_refl))).
    f_equal.
    apply IH; [exact Hsec | |].
    - intros a Ha. apply In_nth_error in Ha as (j & Hj).
      apply (Hsorted 0%nat (S j) now_dt a); [lia | reflexivity | exact Hj].
    - intros i j a b Hij Ha Hb.
      apply (Hsorted (S i) (S j) a b); [lia | exact Ha | exact Hb]. }
  intros last_dt Hsec Hsorted.
  destruct nows as [| now_dt rest]; [reflexivity |].
  cbn [targets map]. f_equal.
  apply Hgen; [exact Hsec | |].
  - intros a Ha. apply In_nth_error in Ha as (j & Hj).
    apply (Hsorted 0%nat (S j) now_dt a); [lia | reflexivity | exact Hj].
  - intros i j a b Hij Ha Hb.
    apply (Hsorted (S i) (S j) a b); [lia | exact Ha | exact Hb].
Qed.

End CycleFacts.

(** ** The wait loop of a window *)

Module WaitLoopFacts.
Import Futures Monkey.

Lemma scan_done_true (results : list (option fut_result)) :
  scan_done results = true -> In (Some (Returned true)) results.
Proof.
  induction results as [| r rest IH]; cbn [scan_done]; [discriminate |].
  destruct r as [[[|] |] |]; intros H;
    first [left; reflexivity | right; apply IH, H].
Qed.

Lemma scan_done_false (results : list (option fut_result)) :
  scan_done results = false -> ~ In (Some (Returned true)) results.
Proof.
  induction results as [| r rest IH]; cbn [scan_done]; [intros _ [] |].
  destruct r as [[[|] |] |]; intros H [Hr | Hr];
    try discriminate; apply (IH H Hr).
Qed.

Lemma wait_loop_success (fuel : nat) (st : status) (n : nat)
  (futures : list nat) :
  wait_loop fuel st n futures true = Some (true, futures, n).
Proof. destruct fuel, futures; reflexivity. Qed.

Lemma wait_loop_empty (fuel : nat) (st : status) (n : nat) (success : bool) :
  wait_loop fuel st n [] success = Some (success, [], n).
Proof. destruct fuel, success; reflexivity. Qed.

Lemma wait_loop_won (fuel : nat) (st : status) (n m : nat)
  (futures rest : list nat) :
  wait_loop fuel st n futures false = Some (true, rest, m) ->
  exists i k,
    In i futures /\ (n <= k < m)%nat /\ st k i = Some (Returned true).
Proof.
  revert n futures. induction fuel as [| fuel IH]; intros n futures.
  - destruct futures; cbn; discriminate.
  - destruct futures as [| j tl]; cbn [wait_loop]; [discriminate |].
    destruct (scan_done (map (st n) (filter (finished st n) (j :: tl))))
      eqn:Hscan.
    + rewrite wait_loop_success. intros Hret.
      assert (Hm : m = S n) by congruence.
      apply scan_done_true in Hscan. apply in_map_iff in Hscan as (i & Hi & Hin).
      apply filter_In in Hin as [Hin _].
      exists i, n. split; [exact Hin |]. split; [lia | exact Hi].
    + intros Hret. destruct (IH _ _ Hret) as (i & k & Hin & Hk & Hi).
      apply filter_In in Hin as [Hin _].
      exists i, k. split; [exact Hin |]. split; [lia | exact Hi].
Qed.

(** X13. A window is won only on a future that returned a truthy value:
    when the wait loop ends with success, one of the dispatched futures
    had finished, at one of the looks the loop made, by returning a
    truthy value. A future that raised or returned a falsy value never
    ends the loop with success. *)
Theorem X13_won_window (fuel : nat) (st : status) (futures : list nat)
  (w : window_end) :
  run_window fuel st futures = Some w ->
  won w = true ->
  exists i k,
    In i futures /\ (k < looks w)%nat /\ st k i = Some (Returned true).
Proof.
  unfold run_window.
  destruct (wait_loop fuel st 0 futures false) as [[[success rest] m] |]
    eqn:Hloop; [| discriminate].
  intros H Hwon. injection H as <-. cbn in *. subst success.
  destruct (wait_loop_won _ _ _ _ _ _ Hloop) as (i & k & Hin & Hk & Hi).
  exists i, k. split; [exact Hin |]. split; [lia | exact Hi].
Qed.

Lemma X13_won_window_witness :
  exists i k,
    In i [0; 1]%nat /\ (k < 1)%nat
    /\ Samples.first_wins k i = Some (Returned true).
Proof.
  apply (X13_won_window 5 Samples.first_wins [0; 1]%nat
           {| won := true; still_running := [1%nat]; looks := 1 |});
    reflexivity.
Defined.

Lemma wait_loop_returns (N : nat) (st : status) (all : list nat) :
  (forall k i, (N <= k)%nat -> In i all -> finished st k i = true) ->
  forall (fuel n : nat) (futures : list nat) (success : bool),
    incl futures all ->
    (N - n < fuel)%nat ->
    exists r, wait_loop fuel st n futures success = Some r.
Proof.
  intros Hdone. induction fuel as [| fuel IH];
    intros n futures success Hincl Hfuel; [lia |].
  destruct futures as [| j tl], success; cbn [wait_loop];
    try (eexists; reflexivity).
  destruct (Nat.le_gt_cases N n) as [Hle | Hgt].
  - rewrite (Barrier.filter_none (fun i => negb (finished st n i)) (j :: tl)).
    + rewrite wait_loop_empty. eexists. reflexivity.
    + intros i Hi. rewrite (Hdone n i Hle (Hincl i Hi)). reflexivity.
  - apply IH; [| lia].
    intros i Hi. apply filter_In in Hi as [Hi _]. apply Hincl, Hi.
Qed.

Lemma wait_loop_looks (N : nat) (st : status) (all : list nat) :
  (forall k i, (N <= k)%nat -> In i all -> finished st k i = true) ->
  forall (fuel n : nat) (futures : list nat) (success : bool),
    incl futures all ->
    forall success' rest m,
      wait_loop fuel st n futures success = Some (success', rest, m) ->
      (m <= S (Nat.max n N))%nat.
Proof.
  intros Hdone. induction fuel as [| fuel IH];
    intros n futures success Hincl success' rest m.
  - destruct futures, success; cbn; intros H; try discriminate;
      injection H as <- <- <-; lia.
  - destruct futures as [| j tl], success; cbn [wait_loop];
      try (intros H; injection H as <- <- <-; lia).
    intros H.
    destruct (Nat.le_gt_cases N n) as [Hle | Hgt].
    + rewrite (Barrier.filter_none (fun i => negb (finished st n i))
                 (j :: tl)) in H.
      * rewrite wait_loop_empty in H. injection H as <- <- <-. lia.
      * intros i Hi. rewrite (Hdone n i Hle (Hincl i Hi)). reflexivity.
    + apply IH in H; [lia |].
      intros i Hi. apply filter_In in Hi as [Hi _]. apply Hincl, Hi.
Qed.

(** X14. The wait loop ends once every dispatched future has finished: if
    all of them are finished from the N-th look on, [N + 1] turns are
    enough, with or without a success. Until then it keeps looking, one
    timeout after the other. *)
Theorem X14_window_ends (N fuel : nat) (st : status) (futures : list nat) :
  (forall k i, (N <= k)%nat -> In i futures -> finished st k i = true) ->
  (N < fuel)%nat ->
  exists w, run_window fuel st futures = Some w /\ (looks w <= N + 1)%nat.
Proof.
  intros Hdone Hfuel. unfold run_window.
  destruct (wait_loop_returns N st futures Hdone fuel 0 futures false
              (incl_refl _) ltac:(lia)) as ([[success rest] m] & Hloop).
  rewrite Hloop. eexists. split; [reflexivity |]. cbn [looks].
  pose proof (wait_loop_looks N st futures Hdone fuel 0 futures false
                (incl_refl _) _ _ _ Hloop).
  lia.
Qed.

Lemma X14_window_ends_witness :
  exists w,
    run_window 5 Samples.all_fail [0; 1; 2]%nat = Some w
    /\ (looks w <= 2 + 1)%nat.
Proof.
  apply (X14_window_ends 2 5 Samples.all_fail [0; 1; 2]%nat).
  - intros k i Hk Hin. unfold finished, Samples.all_fail.
    assert (Hi : (i <= 2)%nat)
      by (destruct Hin as [<- | [<- | [<- | []]]]; lia).
    replace (i <=? k)%nat with true; [reflexivity |].
    symmetry. apply Nat.leb_le. lia.
  - lia.
Defined.

End WaitLoopFacts.

(** ** The hotkey names *)

Module HotkeyNamesFacts.
Import HotkeyNames.

Section Chars.
Variable char : Type.
Variable eqb : char -> char -> bool.
Variable isspace : char -> bool.
Hypothesis eqb_eq : forall a b : char, eqb a b = true <-> a = b.

Local Abbreviation split := (split char eqb).
Local Abbreviation join := (join char).
Local Abbreviation lstrip := (lstrip char isspace).
Local Abbreviation rstrip := (rstrip char isspace).
Local Abbreviation strip := (strip char isspace).
Local Abbreviation occurrences := (occurrences char eqb).

Lemma split_cons (sep : char) (s : list char) :
  exists first others, split sep s = first :: others.
Proof.
  induction s as [| c rest (first & others & IH)]; cbn.
  - eexists; eexists; reflexivity.
  - destruct (eqb c sep); [eexists; eexists; reflexivity |].
    rewrite IH. eexists; eexists; reflexivity.
Qed.

Lemma split_length (sep : char) (s : list char) :
  List.length (split sep s) = S (occurrences sep s).
Proof.
  unfold HotkeyNames.occurrences.
  induction s as [| c rest IH]; cbn; [reflexivity |].
  destruct (eqb c sep); cbn; [rewrite IH; reflexivity |].
  destruct (split_cons sep rest) as (first & others & Hs).
  rewrite Hs in *. exact IH.
Qed.

Lemma split_no_sep (sep : char) (s : list char) :
  Forall (fun part => ~ In sep part) (split sep s).
Proof.
  induction s as [| c rest IH]; cbn.
  - constructor; [intros [] | constructor].
  - destruct (eqb c sep) eqn:Hc.
    + constructor; [intros [] | exact IH].
    + destruct (split_cons sep rest) as (first & others & Hs).
      rewrite Hs in *. inversion IH as [| ? ? Hfirst Hothers]; subst.
      constructor; [| exact Hothers].
      intros [Heq | Hin]; [| exact (Hfirst Hin)].
      apply eqb_eq in Heq. congruence.
Qed.

Lemma join_cons_cons (sep : char) (p q : list char)
  (parts : list (list char)) :
  join sep (p :: q :: parts) = p ++ sep :: join sep (q :: parts).
Proof. reflexivity. Qed.

Lemma join_split (sep : char) (s : list char) :
  join sep (split sep s) = s.
Proof.
  induction s as [| c rest IH]; [reflexivity |].
  cbn [HotkeyNames.split].
  destruct (split_cons sep rest) as (first & others & Hs).
  rewrite Hs in *.
  destruct (eqb c sep) eqn:Hc.
  - apply eqb_eq in Hc. subst c.
    rewrite join_cons_cons, IH. reflexivity.
  - destruct others as [| other others].
    + cbn in *. rewrite IH. reflexivity.
    + rewrite join_cons_cons in *. cbn [app]. rewrite IH. reflexivity.
Qed.

(** [lstrip] keeps a suffix, whose first character is no white space. *)
Lemma lstrip_suffix (s : list char) :
  exists spaces, s = spaces ++ lstrip s.
Proof.
  induction s as [| c rest (spaces & IH)]; cbn; [exists []; reflexivity |].
  destruct (isspace c); [| exists []; reflexivity].
  exists (c :: spaces). cbn. rewrite <- IH. reflexivity.
Qed.

Lemma lstrip_head (s : list char) (c : char) (rest : list char) :
  lstrip s = c :: rest -> isspace c = false.
Proof.
  induction s as [| d tl IH]; cbn; [discriminate |].
  destruct (isspace d) eqn:Hd; [exact IH |].
  intros H. injection H as <- _. exact Hd.
Qed.

Lemma rstrip_prefix (s : list char) :
  exists spaces, s = rstrip s ++ spaces.
Proof.
  unfold HotkeyNames.rstrip.
  destruct (lstrip_suffix (rev s)) as (spaces & Hs).
  exists (rev spaces). rewrite <- rev_app_distr, <- Hs.
  symmetry. apply rev_involutive.
Qed.

Lemma rstrip_last (s front : list char) (c : char) :
  rstrip s = front ++ [c] -> isspace c = false.
Proof.
  unfold HotkeyNames.rstrip. intros H.
  apply (f_equal (@rev char)) in H.
  rewrite rev_involutive, rev_app_distr in H. cbn in H.
  apply (lstrip_head _ _ _ H).
Qed.

Lemma strip_clean (s : list char) :
  (forall c, In c (strip s) -> In c s)
  /\ (forall c rest, strip s = c :: rest -> isspace c = false)
  /\ (forall front c, strip s = front ++ [c] -> isspace c = false).
Proof.
  unfold HotkeyNames.strip.
  destruct (lstrip_suffix s) as (pre & Hpre).
  destruct (rstrip_prefix (lstrip s)) as (post & Hpost).
  split; [| split].
  - intros c Hc. rewrite Hpre, Hpost. apply in_or_app. right.
    apply in_or_app. left. exact Hc.
  - intros c rest Hhead. rewrite Hhead in Hpost. cbn in Hpost.
    apply (lstrip_head _ _ _ Hpost).
  - intros front c. apply rstrip_last.
Qed.

(** X16. The list of hotkey names read from the command line has one
    more entry than the text has commas, so it is never empty; joining
    the pieces of the split with commas gives the text back; and no name
    contains a comma or starts or ends with white space. *)
Theorem X16_hotkey_names (comma : char) (hotkeys : list char) :
  List.length (hotkey_names char eqb isspace comma hotkeys)
  = S (occurrences comma hotkeys)
  /\ join comma (split comma hotkeys) = hotkeys
  /\ Forall
       (fun n =>
          ~ In comma n
          /\ (forall c rest, n = c :: rest -> isspace c = false)
          /\ (forall front c, n = front ++ [c] -> isspace c = false))
       (hotkey_names char eqb isspace comma hotkeys).
Proof.
  unfold HotkeyNames.hotkey_names. split; [| split].
  - rewrite length_map. apply split_length.
  - apply join_split.
  - apply Forall_map. pose proof (split_no_sep comma hotkeys) as Hno.
    induction Hno as [| part parts Hpart _ IH]; constructor; [| exact IH].
    destruct (strip_clean part) as (Hin & Hhead & Hlast).
    split; [intros Hc; apply Hpart, Hin, Hc |].
    split; assumption.
Qed.

End Chars.

Lemma X16_hotkey_names_witness :
  List.length
    (hotkey_names Ascii.ascii Ascii.eqb ascii_isspace comma
       (list_ascii_of_string " hk0, hk1 ,,b c"))
  = S (occurrences Ascii.ascii Ascii.eqb comma
         (list_ascii_of_string " hk0, hk1 ,,b c")).
Proof.
  apply (X16_hotkey_names Ascii.ascii Ascii.eqb ascii_isspace Ascii.eqb_eq
           comma (list_ascii_of_string " hk0, hk1 ,,b c")).
Defined.

Example names_sample :
  ascii_names " hk0, hk1 ,,b c" = ["hk0"; "hk1"; ""; "b c"]%string.
Proof. reflexivity. Qed.

Example names_default : ascii_names "hk0" = ["hk0"%string].
Proof. reflexivity. Qed.

Example names_of_empty : ascii_names "" = [""%string].
Proof. reflexivity. Qed.

End HotkeyNamesFacts.

(** ** Wallets and connections before the first window *)

Module MonkeySetupFacts.
Import Main MonkeySetup.

Lemma unlock_all_ok (e : env) (names acc wallets : list string) :
  unlock_all e names acc = Ok wallets ->
  wallets = acc ++ names /\ Forall (usable e) names.
Proof.
  revert acc. induction names as [| hk rest IH]; intros acc; cbn [unlock_all].
  - intros H. injection H as <-. split; [symmetry; apply app_nil_r |].
    constructor.
  - destruct (make_wallet e hk) as [u |] eqn:Hmake; [| discriminate].
    destruct (unlock_coldkey e hk) as [v |] eqn:Hunlock; [| discriminate].
    intros H. apply IH in H as [-> Hrest]. split.
    + rewrite <- app_assoc. reflexivity.
    + constructor; [| exact Hrest].
      split; eexists; eassumption.
Qed.

Lemma unlock_all_raise (e : env) (names acc : list string) (x : exn) :
  unlock_all e names acc = Raise x ->
  exists hk, In hk names /\ ~ usable e hk.
Proof.
  revert acc. induction names as [| hk rest IH]; intros acc; cbn [unlock_all];
    [discriminate |].
  destruct (make_wallet e hk) as [u | y] eqn:Hmake.
  - destruct (unlock_coldkey e hk) as [v | y] eqn:Hunlock.
    + intros H. apply IH in H as (hk' & Hin & Hbad).
      exists hk'. split; [right; exact Hin | exact Hbad].
    + intros _. exists hk. split; [left; reflexivity |].
      intros [_ (v & Hv)]. congruence.
  - intros _. exists hk. split; [left; reflexivity |].
    intros [(u & Hu) _]. congruence.
Qed.

Lemma connect_each_ok (e : env) (todo : list string) (next : nat)
  (subs subs' : list nat) (tr tr' : list event) :
  connect_each e todo next subs tr = inr (subs', tr') ->
  subs' = subs ++ seq next (List.length todo).
Proof.
  revert next subs tr. induction todo as [| w rest IH]; intros next subs tr;
    cbn [connect_each].
  - intros H. injection H as <- _. symmetry. apply app_nil_r.
  - destruct (new_subtensor e next); [| discriminate].
    intros H. apply IH in H. rewrite H, <- app_assoc. reflexivity.
Qed.

Lemma connect_each_raise (e : env) (todo : list string) (next : nat)
  (subs : list nat) (tr tr' : list event) (x : exn) :
  connect_each e todo next subs tr = inl (x, tr') ->
  exists n, new_subtensor e n = Raise x.
Proof.
  revert next subs tr. induction todo as [| w rest IH]; intros next subs tr;
    cbn [connect_each]; [discriminate |].
  destruct (new_subtensor e next) as [u | y] eqn:Hnew.
  - apply IH.
  - intros H. injection H as <- _. exists next. exact Hnew.
Qed.

Lemma launch_args_in_range (wallets : list string) (before conns : list nat) :
  (List.length wallets <= List.length conns)%nat ->
  launch_args wallets (before ++ conns) (List.length before)
  = Some (combine wallets conns).
Proof.
  revert before conns. induction wallets as [| w rest IH];
    intros before conns Hlen; [reflexivity |].
  destruct conns as [| c conns]; [cbn in Hlen; lia |].
  cbn [launch_args combine].
  rewrite nth_error_app2 by lia. rewrite Nat.sub_diag. cbn [nth_error].
  replace (before ++ c :: conns) with ((before ++ [c]) ++ conns)
    by (rewrite <- app_assoc; reflexivity).
  replace (S (List.length before)) with (List.length (before ++ [c]))
    by (rewrite length_app; cbn; lia).
  rewrite IH by (cbn in Hlen; lia). reflexivity.
Qed.

(** X15. The set-up of monkey.py is all or nothing. It exits with status
    1, before any connection is opened, exactly because some hotkey name
    has no wallet that can be made and unlocked. Otherwise every name is
    usable, and when the connections open the wallets are the names in
    order, each wallet has a connection of its own, none of them the main
    one, and the lookup [subs_for_wallets[idx]] of the launch loop is in
    range for every wallet. *)
Theorem X15_setup (e : env) (hotkey_names : list string) :
  match setup e hotkey_names with
  | SysExit code tr =>
      code = 1 /\ tr = []
      /\ exists hk, In hk hotkey_names /\ ~ usable e hk
  | Uncaught x tr =>
      Forall (usable e) hotkey_names
      /\ ((exists n, new_subtensor e n = Raise x)
          \/ current_block e 0 = Raise x)
  | Ready wallets sub subs tr =>
      wallets = hotkey_names
      /\ Forall (usable e) hotkey_names
      /\ List.length subs = List.length wallets
      /\ NoDup (sub :: subs)
      /\ launch_args wallets subs 0 = Some (combine wallets subs)
  end.
Proof.
  unfold setup.
  destruct (unlock_all e hotkey_names []) as [wallets | x] eqn:Hunlock.
  2:{ split; [reflexivity |]. split; [reflexivity |].
      apply (unlock_all_raise e hotkey_names [] x Hunlock). }
  apply unlock_all_ok in Hunlock as [-> Husable]. cbn [app].
  destruct (new_subtensor e 0) as [u | x] eqn:Hmain.
  2:{ split; [exact Husable |]. left. exists 0%nat. exact Hmain. }
  destruct (current_block e 0) as [b | x] eqn:Hblock.
  2:{ split; [exact Husable |]. right. reflexivity. }
  destruct (connect_each e hotkey_names 1 [] [Open 0%nat; ReadBlock 0%nat])
    as [[x tr] | [subs tr]] eqn:Hconn.
  - split; [exact Husable |]. left.
    apply (connect_each_raise _ _ _ _ _ _ _ Hconn).
  - apply connect_each_ok in Hconn. cbn [app] in Hconn. subst subs.
    split; [reflexivity |]. split; [exact Husable |].
    split; [apply length_seq |].
    split; [apply (seq_NoDup (S (List.length hotkey_names)) 0) |].
    apply (launch_args_in_range hotkey_names [] _).
    rewrite length_seq. lia.
Qed.

Example setup_all_fine :
  setup SetupSamples.all_fine ["hk0"; "hk1"; "hk2"]%string
  = Ready ["hk0"; "hk1"; "hk2"]%string 0%nat [1; 2; 3]%nat
      [Open 0%nat; ReadBlock 0%nat; Open 1%nat; ReadBlock 1%nat;
       Open 2%nat; ReadBlock 2%nat; Open 3%nat; ReadBlock 3%nat].
Proof. reflexivity. Qed.

Example setup_wrong_password :
  setup SetupSamples.wrong_password ["hk0"; "hk1"; "hk2"]%string
  = SysExit 1 [].
Proof. reflexivity. Qed.

End MonkeySetupFacts.

(** * The balance gate when the cost is unavailable *)

Module CostUnavailable.
Import Main FloatSign.

Lemma round_aux_not_negative (mx ex : Z) (lx : location) :
  not_negative (binary_round_aux PyFloat.prec PyFloat.emax false mx ex lx).
Proof.
  unfold binary_round_aux.
  destruct (shr_fexp _ _ mx ex lx) as [mrs' e'].
  destruct (shr_fexp _ _ _ e' loc_Exact) as [mrs'' e''].
  destruct (shr_m mrs''); cbn; try exact I.
  destruct (_ <=? _); exact I.
Qed.

Lemma of_Z_not_negative (n : Z) :
  0 <= n -> not_negative (PyFloat.of_Z n).
Proof.
  intros Hn. unfold PyFloat.of_Z, binary_normalize.
  destruct n as [| m | m]; [exact I | | lia].
  unfold binary_round. destruct (shl_align _ _ _) as [mz ez].
  apply round_aux_not_negative.
Qed.

Lemma tao_float_not_negative (rao : Z) :
  0 <= rao -> not_negative (PyFloat.div_Z rao RAO_PER_TAO).
Proof.
  intros Hrao. unfold PyFloat.div_Z.
  pose proof (of_Z_not_negative rao Hrao) as Hx.
  assert (Hy : PyFloat.of_Z RAO_PER_TAO = S754_finite false 8388608000000000 (-23))
    by (vm_compute; reflexivity).
  rewrite Hy.
  destruct (PyFloat.of_Z rao) as [sx | [|] | | [|] mx ex];
    cbn in Hx |- *; try exact I; try contradiction.
  unfold SFdiv. destruct (SFdiv_core_binary _ _ _ _ _ _) as [[mz ez] lz].
  apply round_aux_not_negative.
Qed.

Lemma not_negative_not_below_zero (f : PyFloat.t) :
  not_negative f -> PyFloat.lt f PyFloat.zero = false.
Proof.
  destruct f as [s | [|] | | [|] m e]; cbn; intros H;
    try reflexivity; contradiction.
Qed.

(** X17. When the burn cost is [None], every wallet with a balance that
    is not negative passes the gate: the typed comparison raises, the
    balance becomes the float of its tao amount, the cost becomes 0.0,
    and no float that is not negative is below 0.0. *)
Theorem X17_gate_without_cost (rao : Z) :
  0 <= rao ->
  _compare_balances (PyBalance rao) PyNone = false
  /\ balance_gate (PyBalance rao) PyNone = true.
Proof.
  intros Hrao.
  assert (Hcmp : _compare_balances (PyBalance rao) PyNone = false).
  { unfold _compare_balances. cbn [py_lt pyval_ops].
    change (to_float PyNone) with PyFloat.zero.
    change (to_float (PyBalance rao))
      with (PyFloat.div_Z rao RAO_PER_TAO).
    apply not_negative_not_below_zero, tao_float_not_negative, Hrao. }
  split; [exact Hcmp |].
  unfold balance_gate. rewrite Hcmp. reflexivity.
Qed.

Lemma X17_gate_without_cost_witness :
  0 <= 5000000000
  /\ _compare_balances (PyBalance 5000000000) PyNone = false
  /\ balance_gate (PyBalance 5000000000) PyNone = true.
Proof.
  split; [lia | apply (X17_gate_without_cost 5000000000); lia].
Defined.

(** A negative amount would be held back. *)
Example gate_negative_without_cost :
  balance_gate (PyBalance (-1)) PyNone = false.
Proof. vm_compute. reflexivity. Qed.

End CostUnavailable.

(** * The order of the wallets within a turn of the watch loop *)

Module WatchOrder.
Import Main Lookup.

Lemma get_uid_answer (e : env) (t : nat) (hot : string) (s : state) :
  exists s',
    _get_uid_for_hotkey e t hot s = Ret (uid_answer e t hot) s'
    /\ tick_count s' = tick_count s
    /\ success_event s' = success_event s
    /\ success s' = success s.
Proof.
  destruct (Wrappers.get_uid_for_hotkey_cases e t hot s) as (uid & s' & Heq & Hcase).
  exists s'. unfold uid_answer.
  destruct (get_uid_for_hotkey_on_subnet e t hot) as [answer | x].
  - destruct Hcase as [-> ->]. repeat split. exact Heq.
  - destruct Hcase as (-> & Hone & Hnone).
    assert (Huid : uid = match is_hotkey_registered_on_subnet e t hot with
                         | Ok true => Some 1
                         | _ => None
                         end).
    { destruct (is_hotkey_registered_on_subnet e t hot) as [[|] | y].
      - apply Hone. reflexivity.
      - apply Hnone. discriminate.
      - apply Hnone. discriminate. }
    rewrite <- Huid. repeat split. exact Heq.
Qed.

(** A wallet that does not qualify is passed over, whatever follows. *)
Lemma scan_wallets_skip (e : env) (w : wallet) (s : state) :
  qualifies e (tick_count s) w = false ->
  exists s1,
    (forall rest, scan_wallets e (w :: rest) s = scan_wallets e rest s1)
    /\ tick_count s1 = tick_count s
    /\ success_event s1 = success_event s.
Proof.
  unfold qualifies. intros Hq.
  destruct (hotkey w) as [hot | x] eqn:Hhot.
  - destruct (get_uid_answer e (tick_count s) hot s)
      as (s1 & Hlook & Ht & He & _).
    exists s1. split; [| split; assumption].
    intros rest. cbn [scan_wallets]. rewrite Hhot.
    unfold bind at 1, gets at 1. unfold bind at 1. rewrite Hlook.
    destruct (uid_answer e (tick_count s) hot) as [u |]; [| reflexivity].
    destruct (u =? 0); [reflexivity | discriminate].
  - exists s. split; [| split; reflexivity].
    intros rest. cbn [scan_wallets]. rewrite Hhot. reflexivity.
Qed.

(** X18. Within one turn of the watch loop the wallets are tried in list
    order and the first that qualifies wins: if no wallet before [w]
    passes the test and the lookup for [w] answers an index other than
    0, the signal is set to [w] with that index, and the wallets after
    [w] are not looked up at all, whatever they are. *)
Theorem X18_first_qualifying_wallet_wins (e : env)
  (before after : list wallet) (w : wallet) (hot : string) (u : Z)
  (s : state) :
  Forall (fun v => qualifies e (tick_count s) v = false) before ->
  hotkey w = Ok hot ->
  uid_answer e (tick_count s) hot = Some u ->
  u <> 0 ->
  success_event s = false ->
  exists s',
    scan_wallets e (before ++ w :: after) s = Ret tt s'
    /\ success s' = Some (name w, u)
    /\ success_event s' = true
    /\ scan_wallets e (before ++ [w]) s = Ret tt s'.
Proof.
  intros Hbefore Hhot Hans Hu. revert s Hbefore Hans.
  induction before as [| v before IH]; intros s Hbefore Hans Hunset.
  - destruct (get_uid_answer e (tick_count s) hot s)
      as (s1 & Hlook & _ & He & _).
    assert (Hrun : forall rest,
      scan_wallets e (w :: rest) s = Ret tt (set_success (name w, u) s1)).
    { intros rest. cbn [scan_wallets]. rewrite Hhot.
      unfold bind at 1, gets at 1. unfold bind at 1. rewrite Hlook, Hans.
      apply Z.eqb_neq in Hu. rewrite Hu. reflexivity. }
    exists (set_success (name w, u) s1). cbn [app].
    split; [apply Hrun |].
    split; [unfold set_success; rewrite He, Hunset; reflexivity |].
    split; [unfold set_success; rewrite He, Hunset; reflexivity |].
    apply Hrun.
  - inversion Hbefore as [| ? ? Hv Hrest]; subst.
    destruct (scan_wallets_skip e v s Hv) as (s1 & Hskip & Ht & He).
    cbn [app]. rewrite !Hskip.
    apply IH.
    + rewrite Ht. exact Hrest.
    + rewrite Ht. exact Hans.
    + rewrite He. exact Hunset.
Qed.

Lemma X18_first_qualifying_wallet_wins_witness :
  exists s',
    scan_wallets Samples.cold_2_wins
      ([Samples.stored "cold_1"] ++ Samples.stored "cold_2"
         :: [Samples.stored "cold_3"])
      (next_tick initial)
    = Ret tt s'
    /\ success s' = Some ("cold_2"%string, 7)
    /\ success_event s' = true
    /\ scan_wallets Samples.cold_2_wins
         ([Samples.stored "cold_1"] ++ [Samples.stored "cold_2"])
         (next_tick initial)
       = Ret tt s'.
Proof.
  apply (X18_first_qualifying_wallet_wins Samples.cold_2_wins
           [Samples.stored "cold_1"] [Samples.stored "cold_3"]
           (Samples.stored "cold_2") "5H_cold_2" 7 (next_tick initial)).
  - constructor; [reflexivity | constructor].
  - reflexivity.
  - reflexivity.
  - discriminate.
  - reflexivity.
Defined.

End WatchOrder.

(** ** The pool, step by step *)

Module PoolFacts.
Import Main Pool.

Lemma update_length {A : Type} (i : nat) (x : A) (l : list A) :
  List.length (update i x l) = List.length l.
Proof.
  revert i. induction l as [| y rest IH]; intros [| j]; cbn;
    try reflexivity.
  rewrite IH. reflexivity.
Qed.

Lemma nth_error_update_eq {A : Type} (i : nat) (x y : A) (l : list A) :
  nth_error l i = Some y -> nth_error (update i x l) i = Some x.
Proof.
  revert i. induction l as [| z rest IH]; intros [| j]; cbn;
    try discriminate; [reflexivity | apply IH].
Qed.

Lemma nth_error_update_neq {A : Type} (i j : nat) (x : A) (l : list A) :
  i <> j -> nth_error (update i x l) j = nth_error l j.
Proof.
  revert i j. induction l as [| z rest IH]; intros [| i] [| j] Hne; cbn;
    try reflexivity; [contradiction | apply IH; lia].
Qed.


(** A step of a task always returns. *)
Lemma task_step_returns e burn_cost w (st : stage) (s : state) :
  exists st' s', task_step e burn_cost w st s = Ret st' s'.
Proof.
  destruct st as [| | | ok info | r]; cbn [task_step].
  - unfold bind, gets.
    destruct (success_event s || task_late e (name w));
      eexists; eexists; reflexivity.
  - unfold bind at 1, try_except.
    destruct (Coordinator.get_wallet_balance_total e w s)
      as (bal & s1 & -> & _).
    destruct (balance_gate bal burn_cost); eexists; eexists; reflexivity.
  - unfold bind.
    destruct (Coordinator.try_register_total e w s) as (ok & info & ->).
    eexists; eexists; reflexivity.
  - eexists; eexists; reflexivity.
  - eexists; eexists; reflexivity.
Qed.

Lemma main_step_returns e wallets (p : pool) (s : state) :
  exists p' s', main_step e wallets p s = Ret p' s'.
Proof.
  unfold main_step, bind at 1, gets at 1.
  destruct (watching s).
  - unfold bind.
    destruct (RaceFacts.watch_step_returns e wallets s) as (s1 & ->).
    eexists; eexists; reflexivity.
  - destruct (drained p); eexists; eexists; reflexivity.
Qed.

Lemma pool_step_returns e burn_cost wallets futures a (p : pool) (s : state) :
  exists p' s', step e burn_cost wallets futures a p s = Ret p' s'.
Proof.
  destruct a as [i |]; cbn [step]; [| apply main_step_returns].
  destruct (nth_error futures i) as [w |]; [| eexists; eexists; reflexivity].
  destruct (nth_error (stages p) i) as [st |];
    [| eexists; eexists; reflexivity].
  unfold bind.
  destruct (task_step_returns e burn_cost w st s) as (st' & s1 & ->).
  eexists; eexists; reflexivity.
Qed.

(** The race neither raises nor stops half way through its schedule. *)
Lemma pool_race_returns e burn_cost wallets futures sched (p : pool) (s : state) :
  exists p' s', race e burn_cost wallets futures sched p s = Ret p' s'.
Proof.
  revert p s. induction sched as [| a rest IH]; intros p s; cbn [race].
  - eexists; eexists; reflexivity.
  - unfold bind.
    destruct (pool_step_returns e burn_cost wallets futures a p s)
      as (p1 & s1 & ->).
    apply IH.
Qed.

(** The four steps of a task are [submit_one]. *)
Lemma run_task_submit_one e burn_cost w (s : state) :
  run_task e burn_cost w s
  = (r <- submit_one e burn_cost w ;; ret (Finished r)) s.
Proof.
  unfold run_task, submit_one, bind, gets, ret. cbn [task_step].
  unfold bind, gets, ret.
  destruct (success_event s || task_late e (name w)); [reflexivity |].
  cbn [task_step]. unfold bind, try_except, ret.
  destruct (Coordinator.get_wallet_balance_total e w s)
    as (bal & s1 & -> & _).
  destruct (balance_gate bal burn_cost); [| reflexivity].
  cbn [task_step]. unfold bind, ret.
  destruct (Coordinator.try_register_total e w s1) as (ok & info & ->).
  reflexivity.
Qed.



End PoolFacts.

(** ** Tasks run in one piece *)

(** [Main.race] is the pool with the steps of each task back to back. *)
Module Atomic.
Import Main Pool PoolFacts.

Lemma update_twice {A : Type} (i : nat) (x y : A) (l : list A) :
  update i x (update i y l) = update i x l.
Proof.
  revert i. induction l as [| z rest IH]; intros [| j]; cbn;
    try reflexivity.
  rewrite IH. reflexivity.
Qed.

Lemma set_stage_twice (i : nat) (st st' : stage) (p : pool) :
  set_stage i st (set_stage i st' p) = set_stage i st p.
Proof. unfold set_stage. cbn. rewrite update_twice. reflexivity. Qed.

Lemma stage_after_set (i : nat) (st st0 : stage) (p : pool) :
  nth_error (stages p) i = Some st0 ->
  nth_error (stages (set_stage i st p)) i = Some st.
Proof. intros H. cbn. apply (nth_error_update_eq _ _ _ _ H). Qed.

Lemma task_action e burn_cost wallets futures (i : nat) (w : wallet)
  (st : stage) (p : pool) (s : state) :
  nth_error futures i = Some w ->
  nth_error (stages p) i = Some st ->
  step e burn_cost wallets futures (ATask i) p s
  = (st' <- task_step e burn_cost w st ;; ret (set_stage i st' p)) s.
Proof. intros Hi Hst. cbn [step]. rewrite Hi, Hst. reflexivity. Qed.

Lemma race_app e burn_cost wallets futures (l1 l2 : list action)
  (p : pool) (s : state) :
  race e burn_cost wallets futures (l1 ++ l2) p s
  = (p1 <- race e burn_cost wallets futures l1 p ;;
     race e burn_cost wallets futures l2 p1) s.
Proof.
  revert p s. induction l1 as [| a l1 IH]; intros p s; [reflexivity |].
  cbn [app race]. unfold bind.
  destruct (step e burn_cost wallets futures a p s) as [p1 s1 | x s1 | s1];
    try reflexivity.
  rewrite IH. reflexivity.
Qed.

(** The four steps of a queued task, back to back, are [run_task]. *)
Lemma four_steps e burn_cost wallets futures (i : nat) (w : wallet)
  (p : pool) (s : state) :
  nth_error futures i = Some w ->
  nth_error (stages p) i = Some Queued ->
  race e burn_cost wallets futures [ATask i; ATask i; ATask i; ATask i] p s
  = (st <- run_task e burn_cost w ;; ret (set_stage i st p)) s.
Proof.
  intros Hi Hq. cbn [race]. unfold run_task.
  unfold bind at 1. rewrite (task_action _ _ _ _ _ _ _ _ _ Hi Hq).
  unfold bind at 1 5 6 7 8.
  destruct (task_step_returns e burn_cost w Queued s) as (st1 & s1 & ->).
  unfold ret at 1.
  pose proof (stage_after_set i st1 Queued p Hq) as H1.
  unfold bind at 1. rewrite (task_action _ _ _ _ _ _ _ _ _ Hi H1).
  unfold bind at 1.
  destruct (task_step_returns e burn_cost w st1 s1) as (st2 & s2 & ->).
  unfold ret at 1. rewrite set_stage_twice.
  pose proof (stage_after_set i st2 Queued p Hq) as H2.
  unfold bind at 1. rewrite (task_action _ _ _ _ _ _ _ _ _ Hi H2).
  unfold bind at 1.
  destruct (task_step_returns e burn_cost w st2 s2) as (st3 & s3 & ->).
  unfold ret at 1. rewrite set_stage_twice.
  pose proof (stage_after_set i st3 Queued p Hq) as H3.
  unfold bind at 1. rewrite (task_action _ _ _ _ _ _ _ _ _ Hi H3).
  unfold bind at 1.
  destruct (task_step_returns e burn_cost w st3 s3) as (st4 & s4 & ->).
  unfold ret at 1. rewrite set_stage_twice. reflexivity.
Qed.

(** A step of the main thread is a look of the watch loop on the shared
    state, and leaves the stages as they are. *)
Lemma tick_action e wallets (p : pool) (s : state) :
  exists p1 s1,
    main_step e wallets p s = Ret p1 s1
    /\ watch_step e wallets s = Ret tt s1
    /\ stages p1 = stages p.
Proof.
  unfold main_step, bind at 1, gets at 1.
  destruct (watching s) eqn:Hon.
  - unfold bind.
    destruct (RaceFacts.watch_step_returns e wallets s) as (s1 & Hw).
    rewrite Hw. exists p, s1. repeat split.
  - assert (Hw : watch_step e wallets s = Ret tt s).
    { unfold watch_step, bind, gets. rewrite Hon. reflexivity. }
    destruct (drained p); eexists; eexists;
      (split; [reflexivity | split; [exact Hw | reflexivity]]).
Qed.

(** A run of [Main.race] in which no future is started twice is the run
    of the pool on the same schedule with the four steps of each task
    back to back: both end in the same shared state. *)
Lemma race_in_one_piece e burn_cost wallets futures sched (p : pool)
  (s s' : state) :
  NoDup (task_ids sched) ->
  List.length (stages p) = List.length futures ->
  (forall i, In i (task_ids sched) -> (i < List.length futures)%nat ->
             nth_error (stages p) i = Some Queued) ->
  Main.race e burn_cost wallets futures sched s = Ret tt s' ->
  exists p',
    race e burn_cost wallets futures (expand sched) p s = Ret p' s'.
Proof.
  revert p s. induction sched as [| a rest IH]; intros p s Hnd Hlen Hq Hrace.
  - cbn in Hrace. injection Hrace as <-. exists p. reflexivity.
  - cbn [Main.race] in Hrace. unfold bind in Hrace.
    destruct a as [i |].
    + change (expand (ATask i :: rest))
        with ([ATask i; ATask i; ATask i; ATask i] ++ expand rest).
      rewrite race_app. unfold bind at 1.
      cbn [task_ids flat_map app] in Hnd, Hq.
      apply NoDup_cons_iff in Hnd. destruct Hnd as [Hfresh Hnd].
      cbn [Main.step] in Hrace.
      destruct (nth_error futures i) as [w |] eqn:Hi.
      * assert (Hlt : (i < List.length futures)%nat).
        { apply nth_error_Some. rewrite Hi. discriminate. }
        pose proof (Hq i (or_introl eq_refl) Hlt) as Hqi.
        rewrite (four_steps _ _ _ _ _ _ _ _ Hi Hqi).
        unfold bind at 1. rewrite run_task_submit_one.
        unfold bind at 1. unfold bind at 1 in Hrace.
        destruct (submit_one e burn_cost w s) as [r s1 | x s1 | s1];
          try discriminate.
        unfold ret at 1. unfold ret at 1. unfold ret at 1 in Hrace.
        apply (IH _ _ Hnd); [| | exact Hrace].
        -- cbn. rewrite update_length. exact Hlen.
        -- intros j Hj Hjlt. cbn.
           rewrite nth_error_update_neq;
             [apply Hq; [right; exact Hj | exact Hjlt] |].
           intros ->. contradiction.
      * assert (Hsame : race e burn_cost wallets futures
                          [ATask i; ATask i; ATask i; ATask i] p s
                        = Ret p s).
        { cbn [race step]. rewrite Hi. reflexivity. }
        rewrite Hsame. unfold ret at 1 in Hrace.
        apply (IH _ _ Hnd Hlen); [| exact Hrace].
        intros j Hj. apply Hq. right. exact Hj.
    + change (expand (ATick :: rest)) with (ATick :: expand rest).
      cbn [race step]. unfold bind at 1.
      cbn [Main.step] in Hrace.
      destruct (tick_action e wallets p s) as (p1 & s1 & -> & Hw & Hst).
      rewrite Hw in Hrace.
      apply (IH _ _ Hnd); [| | exact Hrace].
      * rewrite Hst. exact Hlen.
      * intros j Hj. rewrite Hst. apply Hq. exact Hj.
Qed.

End Atomic.

(** ** After the signal, step by step *)

Module AfterSignal.
Import Main Pool PoolFacts.










(** A task overtaken by the signal: the task of [cold_1] passes its test,
    the watch loop then sets the signal, and the task still queries the
    balance, submits and writes its record; the two tasks that start
    after the signal do nothing. *)
Example overtaken_task_goes_on :
  exists s,
    main 0 PoolSamples.overtaken initial
    = Ret (Registered ("cold_1"%string, 1)) s
    /\ trace s
       = [Connect; QueryBurnCost; QueryBlock; QueryMetagraph;
          QueryUid "5H_cold_1"; QueryRegistered "5H_cold_1"; Sleep 200;
          QueryBalance "5C_cold_1"; SubmitRegister "cold_1"]
    /\ submitted s = [("cold_1", false, "AlreadyRegistered")]%string.
Proof. eexists. split; [vm_compute; reflexivity |]. split; reflexivity. Qed.

End AfterSignal.

(** ** The barrier of main.py, step by step *)

Module CycleBarrier.
Import Main Pool PoolFacts.




(** *** The wait in the drain ends *)

Lemma task_step_watching e burn_cost w (st st' : stage) (s s' : state) :
  task_step e burn_cost w st s = Ret st' s' -> watching s' = watching s.
Proof.
  destruct st as [| | | ok info | r]; cbn [task_step].
  - unfold bind, gets, ret.
    destruct (success_event s || task_late e (name w)); intros H;
      injection H as _ <-; reflexivity.
  - unfold bind, try_except, _get_wallet_balance.
    destruct (coldkeypub w) as [address | x].
    + unfold try_except, call, bind, emit, ret, raise.
      destruct (get_balance e address) as [v | x];
        match goal with
        | |- context [balance_gate ?b burn_cost] =>
            destruct (balance_gate b burn_cost)
        end; intros H; injection H as _ <-; reflexivity.
    + unfold ret.
      destruct (balance_gate PyNone burn_cost); intros H;
        injection H as _ <-; reflexivity.
  - unfold bind.
    destruct (Coordinator.try_register_total e w s) as (ok & info & ->).
    unfold ret. intros H. injection H as _ <-. reflexivity.
  - unfold bind, modify, ret. intros H. injection H as _ <-. reflexivity.
  - unfold ret. intros H. injection H as _ <-. reflexivity.
Qed.

(** How far a stage is from the return of its task. *)
Lemma task_step_advances e burn_cost w (st st' : stage) (s s' : state) :
  task_step e burn_cost w st s = Ret st' s' ->
  match st with
  | Queued => st' = AtBalance \/ st' = Finished None
  | AtBalance => st' = AtRegister \/ st' = Finished None
  | AtRegister => exists ok info, st' = AtAppend ok info
  | AtAppend _ info => st' = Finished (Some info)
  | Finished r => st' = Finished r
  end.
Proof.
  destruct st as [| | | ok info | r]; cbn [task_step].
  - unfold bind, gets, ret.
    destruct (success_event s || task_late e (name w)); intros H;
      injection H as <- _; auto.
  - unfold bind, try_except.
    destruct (Coordinator.get_wallet_balance_total e w s)
      as (bal & s1 & -> & _).
    unfold ret. destruct (balance_gate bal burn_cost); intros H;
      injection H as <- _; auto.
  - unfold bind.
    destruct (Coordinator.try_register_total e w s) as (ok & info & ->).
    unfold ret. intros H. injection H as <- _. eexists; eexists; reflexivity.
  - unfold bind, modify, ret. intros H. injection H as <- _. reflexivity.
  - unfold ret. intros H. injection H as <- _. reflexivity.
Qed.

(** One step of a task: the watch flag, the size of the pool, the other
    futures and the finished ones stay as they are. *)
Lemma task_action_frame e burn_cost wallets futures (i : nat) (p p' : pool)
  (s s' : state) :
  step e burn_cost wallets futures (ATask i) p s = Ret p' s' ->
  watching s' = watching s
  /\ List.length (stages p') = List.length (stages p)
  /\ (forall j, done p j -> done p' j)
  /\ (forall w st,
        nth_error futures i = Some w -> nth_error (stages p) i = Some st ->
        exists st',
          nth_error (stages p') i = Some st'
          /\ match st with
             | Queued => st' = AtBalance \/ st' = Finished None
             | AtBalance => st' = AtRegister \/ st' = Finished None
             | AtRegister => exists ok info, st' = AtAppend ok info
             | AtAppend _ info => st' = Finished (Some info)
             | Finished r => st' = Finished r
             end).
Proof.
  cbn [step]. intros Hstep.
  destruct (nth_error futures i) as [w |] eqn:Hi.
  2:{ injection Hstep as <- <-. repeat split; auto. discriminate. }
  destruct (nth_error (stages p) i) as [st |] eqn:Hst.
  2:{ injection Hstep as <- <-. repeat split; auto. discriminate. }
  unfold bind in Hstep.
  destruct (task_step e burn_cost w st s) as [st' s1 | x s1 | s1] eqn:Hts;
    try discriminate.
  unfold ret in Hstep. injection Hstep as <- <-.
  pose proof (task_step_advances _ _ _ _ _ _ _ Hts) as Hadv.
  split; [apply (task_step_watching _ _ _ _ _ _ _ Hts) |].
  split; [cbn; apply update_length |].
  split.
  - intros j [r Hj]. unfold done. cbn [set_stage stages].
    destruct (Nat.eq_dec i j) as [<- | Hne].
    + rewrite (nth_error_update_eq _ _ _ _ Hst).
      rewrite Hst in Hj. injection Hj as ->. rewrite Hadv.
      exists r. reflexivity.
    + rewrite (nth_error_update_neq _ _ _ _ Hne). exists r. exact Hj.
  - intros w0 st0 Hw0 Hst0. injection Hw0 as <-. injection Hst0 as <-.
    exists st'. split; [| exact Hadv].
    cbn [set_stage stages]. apply (nth_error_update_eq _ _ _ _ Hst).
Qed.

(** Four steps bring any future to its return. *)
Lemma four_steps_finish e burn_cost wallets futures (i : nat) (p : pool)
  (s : state) :
  List.length (stages p) = List.length futures ->
  exists p' s',
    race e burn_cost wallets futures [ATask i; ATask i; ATask i; ATask i] p s
    = Ret p' s'
    /\ watching s' = watching s
    /\ List.length (stages p') = List.length (stages p)
    /\ (forall j, done p j -> done p' j)
    /\ ((i < List.length futures)%nat -> done p' i).
Proof.
  intros Hlen. cbn [race]. unfold bind.
  destruct (pool_step_returns e burn_cost wallets futures (ATask i) p s)
    as (p1 & s1 & H1). rewrite H1.
  destruct (pool_step_returns e burn_cost wallets futures (ATask i) p1 s1)
    as (p2 & s2 & H2). rewrite H2.
  destruct (pool_step_returns e burn_cost wallets futures (ATask i) p2 s2)
    as (p3 & s3 & H3). rewrite H3.
  destruct (pool_step_returns e burn_cost wallets futures (ATask i) p3 s3)
    as (p4 & s4 & H4). rewrite H4.
  destruct (task_action_frame _ _ _ _ _ _ _ _ _ H1) as (W1 & L1 & D1 & A1).
  destruct (task_action_frame _ _ _ _ _ _ _ _ _ H2) as (W2 & L2 & D2 & A2).
  destruct (task_action_frame _ _ _ _ _ _ _ _ _ H3) as (W3 & L3 & D3 & A3).
  destruct (task_action_frame _ _ _ _ _ _ _ _ _ H4) as (W4 & L4 & D4 & A4).
  exists p4, s4. split; [reflexivity |].
  split; [congruence |]. split; [congruence |].
  split; [intros j Hj; apply D4, D3, D2, D1, Hj |].
  intros Hlt.
  destruct (nth_error futures i) as [w |] eqn:Hi.
  2:{ apply nth_error_None in Hi. lia. }
  destruct (nth_error (stages p) i) as [st |] eqn:Hst.
  2:{ apply nth_error_None in Hst. lia. }
  destruct (A1 w st eq_refl eq_refl) as (st1 & Hst1 & Hadv1).
  destruct (A2 w st1 eq_refl Hst1) as (st2 & Hst2 & Hadv2).
  destruct (A3 w st2 eq_refl Hst2) as (st3 & Hst3 & Hadv3).
  destruct (A4 w st3 eq_refl Hst3) as (st4 & Hst4 & Hadv4).
  unfold done. rewrite Hst4.
  destruct st as [| | | ok info | r].
  - destruct Hadv1 as [-> | ->].
    + destruct Hadv2 as [-> | ->].
      * destruct Hadv3 as (ok & info & ->). subst st4. eexists; reflexivity.
      * subst st3 st4. eexists; reflexivity.
    + subst st2 st3 st4. eexists; reflexivity.
  - destruct Hadv1 as [-> | ->].
    + destruct Hadv2 as (ok & info & ->). subst st3 st4.
      eexists; reflexivity.
    + subst st2 st3 st4. eexists; reflexivity.
  - destruct Hadv1 as (ok & info & ->). subst st2 st3 st4.
    eexists; reflexivity.
  - subst st1 st2 st3 st4. eexists; reflexivity.
  - subst st1 st2 st3 st4. eexists; reflexivity.
Qed.

Lemma finish_each e burn_cost wallets futures (l : list nat) (p : pool)
  (s : state) :
  List.length (stages p) = List.length futures ->
  exists p' s',
    race e burn_cost wallets futures (expand (map ATask l)) p s = Ret p' s'
    /\ watching s' = watching s
    /\ List.length (stages p') = List.length (stages p)
    /\ (forall j, done p j -> done p' j)
    /\ (forall j, In j l -> (j < List.length futures)%nat -> done p' j).
Proof.
  revert p s. induction l as [| i rest IH]; intros p s Hlen.
  - exists p, s. cbn. repeat split; auto. contradiction.
  - change (expand (map ATask (i :: rest)))
      with ([ATask i; ATask i; ATask i; ATask i]
              ++ expand (map ATask rest)).
    rewrite Atomic.race_app. unfold bind at 1.
    destruct (four_steps_finish e burn_cost wallets futures i p s Hlen)
      as (p1 & s1 & -> & W1 & L1 & D1 & F1).
    destruct (IH p1 s1) as (p' & s' & Hr & W & L & D & F);
      [congruence |].
    exists p', s'. split; [exact Hr |].
    split; [congruence |]. split; [congruence |].
    split; [intros j Hj; apply D, D1, Hj |].
    intros j [<- | Hj] Hlt; [apply D, F1, Hlt | apply (F j Hj Hlt)].
Qed.

Lemma all_done (p : pool) :
  (forall j, (j < List.length (stages p))%nat -> done p j) ->
  forallb finished (stages p) = true.
Proof.
  intros Hall. apply forallb_forall. intros st Hin.
  destruct (In_nth_error _ _ Hin) as (j & Hj).
  assert (Hlt : (j < List.length (stages p))%nat).
  { apply nth_error_Some. rewrite Hj. discriminate. }
  destruct (Hall j Hlt) as (r & Hr). rewrite Hr in Hj.
  injection Hj as <-. reflexivity.
Qed.

(** The wait of the main thread ends: once the watch loop is over, and as
    soon as every task has taken the steps it has left (four at most),
    the next step of the main thread takes it through the drain and out
    of the [with] block. *)
Lemma drain_goes_through e burn_cost wallets futures (p : pool)
  (s : state) :
  List.length (stages p) = List.length futures ->
  watching s = false ->
  exists p' s',
    race e burn_cost wallets futures
      (finish_all (List.length futures) ++ [ATick]) p s
    = Ret p' s'
    /\ drained p' = true
    /\ forallb finished (stages p') = true.
Proof.
  intros Hlen Hoff. rewrite Atomic.race_app. unfold bind at 1, finish_all.
  destruct (finish_each e burn_cost wallets futures
              (seq 0 (List.length futures)) p s Hlen)
    as (p1 & s1 & -> & W1 & L1 & _ & F1).
  assert (Hfin : forallb finished (stages p1) = true).
  { apply all_done. intros j Hj. apply F1; [| lia].
    apply in_seq. lia. }
  cbn [race step]. unfold bind at 1, main_step, bind at 1, gets at 1.
  rewrite W1, Hoff.
  destruct (drained p1) eqn:Hd; unfold ret.
  - exists p1, s1. repeat split; assumption.
  - eexists; eexists. split; [reflexivity |]. cbn [drained stages].
    split; exact Hfin.
Qed.



(** The run of [cold_2_wins] step by step: the two tasks that got to run
    have written their records before the outcome is read. *)
Example drained_cold_2_wins :
  exists s,
    main 0 PoolSamples.cold_2_wins_drained initial
    = Ret (Registered ("cold_2"%string, 7)) s
    /\ List.length (submitted s) = 2%nat.
Proof. eexists. split; [vm_compute; reflexivity | reflexivity]. Qed.

(** While a dispatched task has not returned the main thread stays in
    the drain: a schedule that ends there yields no report. *)
Example cut_short_no_report :
  forall rep s,
    main 0 PoolSamples.cold_2_wins_cut_short initial <> Ret rep s.
Proof. intros rep s. vm_compute. discriminate. Qed.

End CycleBarrier.
